(** * BaseItemRecommendation: identifier maps, feedback matrix, similarity

    A shallow embedding of
    [caserec/recommenders/item_recommendation/base_item_recommendation.py]
    and the properties its specification states about it.

    Conventions of the embedding.
    - Feedback values and distances are exact rationals ([Qc]); the values
      numpy can produce beyond them (not-a-number, the two infinities) are
      constructors of [fval].  Of the [np.float32] narrowing the range is
      modelled (overflow to an infinity, underflow to zero); rounding and
      the sign of zero are not, and the arithmetic that follows the
      narrowing is exact.
    - Python dictionaries are [gmap]s, Python lists are lists, a numpy
      array is a record with its column count and its rows.
    - A Python exception is a value of [exn]; a method that can raise
      returns [res], and the instance is passed explicitly.  An exception
      carries no instance: what a method had assigned before it raised is
      not modelled.
    - Console output ([print], [print_header]) has no model. *)

From Stdlib Require Import QArith Qcanon.
From stdpp Require Import numbers sorting strings gmap fin_maps list.

(** ** Exceptions *)

Inductive exn :=
  | KeyError
  | IndexError
  | ValueError
  | TypeError
  | AttributeError
  | ReaderError (msg : string).

Inductive res (A : Type) :=
  | Ok (a : A)
  | Raise (e : exn).
Arguments Ok {A} a.
Arguments Raise {A} e.

#[global] Instance res_ret : MRet res := λ A a, Ok a.
#[global] Instance res_bind : MBind res := λ A B k m,
  match m with
  | Ok a => k a
  | Raise e => Raise e
  end.

Definition of_option {A} (e : exn) (o : option A) : res A :=
  match o with
  | Some a => Ok a
  | None => Raise e
  end.

#[global] Instance exn_eq_dec : EqDecision exn.
Proof. solve_decision. Defined.

#[global] Instance res_eq_dec {A} `{EqDecision A} : EqDecision (res A).
Proof. solve_decision. Defined.

(** A [for] loop whose body can raise: the accumulator is threaded through
    the elements, the first exception ends the loop. *)
Fixpoint for_each {A B} (body : B → A → res B) (acc : B) (l : list A) : res B :=
  match l with
  | [] => Ok acc
  | x :: l' => acc' ← body acc x; for_each body acc' l'
  end.

(** ** numpy floating values, without rounding *)

Module Np.

Local Open Scope Qc_scope.

Inductive fval :=
  | Fin (q : Qc)
  | PInf
  | NInf
  | NaN.

Definition isnan (x : fval) : bool :=
  match x with NaN => true | _ => false end.

(** [x - y] *)
Definition fsub (x y : fval) : fval :=
  match x, y with
  | NaN, _ | _, NaN => NaN
  | Fin a, Fin b => Fin (a - b)
  | Fin _, PInf => NInf
  | Fin _, NInf => PInf
  | PInf, PInf => NaN
  | PInf, _ => PInf
  | NInf, NInf => NaN
  | NInf, _ => NInf
  end.

(** [x / y]; numpy does not raise on a zero divisor, it yields an
    infinity, or not-a-number for [0 / 0]. *)
Definition fdiv (x y : fval) : fval :=
  match x, y with
  | NaN, _ | _, NaN => NaN
  | Fin a, Fin b =>
      if decide (b = 0) then
        if decide (0 < a) then PInf
        else if decide (a < 0) then NInf
        else NaN
      else Fin (a / b)
  | Fin _, (PInf | NInf) => Fin 0
  | PInf, Fin b => if decide (b < 0) then NInf else PInf
  | NInf, Fin b => if decide (b < 0) then PInf else NInf
  | (PInf | NInf), (PInf | NInf) => NaN
  end.

(** The binary step of [ndarray.max()], which propagates not-a-number. *)
Definition fmax (x y : fval) : fval :=
  match x, y with
  | NaN, _ | _, NaN => NaN
  | PInf, _ | _, PInf => PInf
  | NInf, z | z, NInf => z
  | Fin a, Fin b => if decide (a ≤ b) then Fin b else Fin a
  end.

(** The order of the extended line; nothing is comparable with [NaN]. *)
Definition fle (x y : fval) : Prop :=
  match x, y with
  | NaN, _ | _, NaN => False
  | NInf, _ | _, PInf => True
  | Fin a, Fin b => a ≤ b
  | _, _ => False
  end.

#[global] Instance fval_eq_dec : EqDecision fval.
Proof. solve_decision. Defined.

#[global] Instance fle_dec (x y : fval) : Decision (fle x y).
Proof. destruct x, y; simpl; apply _. Defined.

Definition zero : fval := Fin 0.
Definition one : fval := Fin 1.

(** Halfway between the largest single-precision number and [2^128]:
    from here on a value is rounded to infinity. *)
Definition float32_overflow : Qc := Qc_of_Z ((2 ^ 25 - 1) * 2 ^ 103).

(** Half the smallest positive single-precision number: up to here a
    value is rounded to zero. *)
Definition float32_underflow : Qc := Q2Qc (1 # 2 ^ 150).

(** [np.float32(x)]: a value beyond the single-precision range becomes an
    infinity, a value too close to zero becomes zero; a value within the
    range is kept as it is (its rounding is not modelled). *)
Definition float32 (x : fval) : fval :=
  match x with
  | Fin a =>
      if decide (float32_overflow ≤ a) then PInf
      else if decide (a ≤ - float32_overflow) then NInf
      else if decide (- float32_underflow ≤ a ∧ a ≤ float32_underflow)
           then Fin 0
      else Fin a
  | _ => x
  end.

End Np.
Export Np.

(** ** numpy arrays of feedback values *)

Record ndarray := Ndarray { ncols : nat; rows : list (list Qc) }.

#[global] Instance ndarray_eq_dec : EqDecision ndarray.
Proof. solve_decision. Defined.

Definition nrows (M : ndarray) : nat := length (rows M).

(** [np.zeros((n, m))] *)
Definition zeros (n m : nat) : ndarray :=
  {| ncols := m; rows := replicate n (replicate m 0%Qc) |}.

(** [M.T] *)
Definition transpose (M : ndarray) : ndarray :=
  {| ncols := nrows M;
     rows := (λ j, (λ r, default 0%Qc (r !! j)) <$> rows M) <$> seq 0 (ncols M) |}.

(** Every row has [ncols] cells. *)
Definition well_shaped (M : ndarray) : Prop :=
  Forall (λ r, length r = ncols M) (rows M).

(** An array of [n] rows and [m] columns. *)
Definition shaped (n m : nat) (M : ndarray) : Prop :=
  nrows M = n ∧ ncols M = m ∧ well_shaped M.

(** [M[r][c] = v]; an index outside the array raises. *)
Definition setitem (M : ndarray) (r c : nat) (v : Qc) : res ndarray :=
  row ← of_option IndexError (rows M !! r);
  if decide (c < length row)
  then Ok {| ncols := ncols M; rows := <[r := <[c := v]> row]> (rows M) |}
  else Raise IndexError.

Definition cell (M : ndarray) (r c : nat) : option Qc :=
  rows M !! r ≫= (.!! c).

(** [M.sum()] *)
Definition Qcsum (l : list Qc) : Qc := foldr Qcplus 0%Qc l.

(** ** Python dictionaries that are iterated: insertion-ordered pairs *)

Fixpoint dict_get {A B} `{EqDecision A} (k : A) (d : list (A * B)) : option B :=
  match d with
  | [] => None
  | (k', v) :: d' => if decide (k = k') then Some v else dict_get k d'
  end.

Definition keys {A B} (d : list (A * B)) : list A := fst <$> d.

(** [enumerate(l)] *)
Definition enumerate {A} (l : list A) : list (nat * A) := imap pair l.

(** ** scipy.spatial.distance, by its documented behaviour *)

Section Distance.

(** The distance of two vectors under the configured metric. *)
Variable dist : list Qc → list Qc → fval.

(** [pdist(X, metric)]: the condensed vector, the distances of the
    pairs [(i, j)] with [i < j], row after row. *)
Fixpoint pdist_with (X : list (list Qc)) : list fval :=
  match X with
  | [] => []
  | u :: X' => (dist u <$> X') ++ pdist_with X'
  end.

End Distance.

(** The square form of dimension [d] of a condensed vector: zero diagonal,
    the vector mirrored on both sides of it. *)
Fixpoint to_squareform (d : nat) (v : list fval) : list (list fval) :=
  match d with
  | 0 => []
  | S d' =>
      (zero :: take d' v)
        :: zip_with cons (take d' v) (to_squareform d' (drop d' v))
  end.

(** [squareform(v)]: the dimension is recovered from the length of [v],
    which has to be a binomial coefficient; the empty vector gives the
    1×1 zero matrix. *)
Definition squareform (v : list fval) : res (list (list fval)) :=
  if decide (length v = 0) then Ok [[zero]]
  else
    let d := Nat.sqrt_up (length v * 2) in
    if decide (d * (d - 1) = length v * 2) then Ok (to_squareform d v)
    else Raise ValueError.

(** An operation applied element-wise to a two-dimensional array. *)
Definition amap (f : fval → fval) (A : list (list fval)) : list (list fval) :=
  map (map f) A.

(** [A.max()]; raises on an array without elements. *)
Definition amax (A : list (list fval)) : res fval :=
  match mjoin A with
  | [] => Raise ValueError
  | x :: l => Ok (foldl fmax x l)
  end.

(** ** The recommender instance *)

Section Recommender.

(** External identifiers of users and items, with the order [sorted]
    uses on them. *)
Context {K : Type} `{Countable K}.
Variable le : relation K.
Context `{!RelDecision le}.

(** In-memory tables accepted instead of a file name. *)
Context {frame : Type}.

(** What a reader returns: [d['users']], [d['items']], [d['feedback']],
    [d['number_interactions']], [d['sparsity']]. *)
Record dataset := Dataset {
  ds_users : list K;
  ds_items : list K;
  ds_feedback : gmap K (list (K * Qc));
  ds_number_interactions : nat;
  ds_sparsity : Qc
}.

(** Collaborators outside this file: the two readers of
    [caserec.utils.process_data] and scipy's table of metric names. *)
Variable ReadFile : string → string → bool → res dataset.
Variable ReadDataframe : frame → bool → res dataset.
Variable metric_of : string → option (list Qc → list Qc → fval).

Inductive source :=
  | Path (p : string)
  | Frame (df : frame).

Record instance := Instance {
  train_file : source;
  test_file : option source;
  as_binary : bool;
  similarity_metric : string;
  output_file : option string;
  rank_length : nat;
  sep : string;
  output_sep : string;
  verbose : bool;
  (* internal vars *)
  item_to_item_id : gmap K nat;
  item_id_to_item : gmap nat K;
  user_to_user_id : gmap K nat;
  user_id_to_user : gmap nat K;
  train_set : option dataset;
  test_set : option dataset;
  users : option (list K);
  items : option (list K);
  matrix : option ndarray;
  recommender_name : option string;
  ranking : list (K * K * Qc)
}.

(** [__init__] *)
Definition init (train_file : source) (test_file : option source)
    (output_file : option string) (as_binary : bool) (rank_length : nat)
    (similarity_metric : string) (sep output_sep : string)
    (verbose : bool) : instance :=
  {| train_file := train_file; test_file := test_file;
     as_binary := as_binary; similarity_metric := similarity_metric;
     output_file := output_file; rank_length := rank_length;
     sep := sep; output_sep := output_sep; verbose := verbose;
     item_to_item_id := ∅; item_id_to_item := ∅;
     user_to_user_id := ∅; user_id_to_user := ∅;
     train_set := None; test_set := None; users := None; items := None;
     matrix := None; recommender_name := None; ranking := [] |}.

(** Attribute assignments. *)
Definition set_data (tr : dataset) (te : option dataset)
    (us its : list K) (self : instance) : instance :=
  {| train_file := train_file self; test_file := test_file self;
     as_binary := as_binary self;
     similarity_metric := similarity_metric self;
     output_file := output_file self; rank_length := rank_length self;
     sep := sep self; output_sep := output_sep self;
     verbose := verbose self;
     item_to_item_id := item_to_item_id self;
     item_id_to_item := item_id_to_item self;
     user_to_user_id := user_to_user_id self;
     user_id_to_user := user_id_to_user self;
     train_set := Some tr; test_set := te;
     users := Some us; items := Some its;
     matrix := matrix self; recommender_name := recommender_name self;
     ranking := ranking self |}.

Definition set_maps (i2id : gmap K nat) (id2i : gmap nat K)
    (u2id : gmap K nat) (id2u : gmap nat K) (self : instance) : instance :=
  {| train_file := train_file self; test_file := test_file self;
     as_binary := as_binary self;
     similarity_metric := similarity_metric self;
     output_file := output_file self; rank_length := rank_length self;
     sep := sep self; output_sep := output_sep self;
     verbose := verbose self;
     item_to_item_id := i2id; item_id_to_item := id2i;
     user_to_user_id := u2id; user_id_to_user := id2u;
     train_set := train_set self; test_set := test_set self;
     users := users self; items := items self;
     matrix := matrix self; recommender_name := recommender_name self;
     ranking := ranking self |}.

Definition set_matrix (M : ndarray) (self : instance) : instance :=
  {| train_file := train_file self; test_file := test_file self;
     as_binary := as_binary self;
     similarity_metric := similarity_metric self;
     output_file := output_file self; rank_length := rank_length self;
     sep := sep self; output_sep := output_sep self;
     verbose := verbose self;
     item_to_item_id := item_to_item_id self;
     item_id_to_item := item_id_to_item self;
     user_to_user_id := user_to_user_id self;
     user_id_to_user := user_id_to_user self;
     train_set := train_set self; test_set := test_set self;
     users := users self; items := items self;
     matrix := Some M; recommender_name := recommender_name self;
     ranking := ranking self |}.

Definition set_ranking (r : list (K * K * Qc)) (self : instance) : instance :=
  {| train_file := train_file self; test_file := test_file self;
     as_binary := as_binary self;
     similarity_metric := similarity_metric self;
     output_file := output_file self; rank_length := rank_length self;
     sep := sep self; output_sep := output_sep self;
     verbose := verbose self;
     item_to_item_id := item_to_item_id self;
     item_id_to_item := item_id_to_item self;
     user_to_user_id := user_to_user_id self;
     user_id_to_user := user_id_to_user self;
     train_set := train_set self; test_set := test_set self;
     users := users self; items := items self;
     matrix := matrix self; recommender_name := recommender_name self;
     ranking := r |}.

(** [sorted(l)] and [set(l)] *)
Definition sorted (l : list K) : list K := merge_sort le l.
Definition set_of (l : list K) : gset K := list_to_set l.

(** One reader call: a file name goes to [ReadFile], anything else to
    [ReadDataframe]. *)
Definition read_source (src : source) (sep : string) (as_binary : bool)
    : res dataset :=
  match src with
  | Path p => ReadFile p sep as_binary
  | Frame df => ReadDataframe df as_binary
  end.

(** The two loops that fill a pair of maps from [enumerate(l)]. *)
Definition index_entities (l : list K) (fwd : gmap K nat) (bwd : gmap nat K)
    : gmap K nat * gmap nat K :=
  foldl (λ '(f, b) '(i, x), (<[x := i]> f, <[i := x]> b))
        (fwd, bwd) (enumerate l).

Definition read_data (self : instance) : res instance :=
  train ← read_source (train_file self) (sep self) (as_binary self);
  '(test, us, its) ←
    match test_file self with
    | Some tf =>
        test ← read_source tf (sep self) false;
        Ok (Some test,
            sorted (elements (set_of (ds_users train ++ ds_users test))),
            sorted (elements (set_of (ds_items train ++ ds_items test))))
    | None => Ok (test_set self, ds_users train, ds_items train)
    end;
  let '(i2id, id2i) :=
    index_entities its (item_to_item_id self) (item_id_to_item self) in
  let '(u2id, id2u) :=
    index_entities us (user_to_user_id self) (user_id_to_user self) in
  Ok (set_maps i2id id2i u2id id2u (set_data train test us its self)).

(** The body of the inner loop of [create_matrix]: the right-hand side
    is evaluated first, then the row, then the column. *)
Definition fill_cell (self : instance) (user : K) (fb : list (K * Qc))
    (M : ndarray) (item : K) : res ndarray :=
  v ← of_option KeyError (dict_get item fb);
  r ← of_option KeyError (user_to_user_id self !! user);
  row ← of_option IndexError (rows M !! r);
  c ← of_option KeyError (item_to_item_id self !! item);
  setitem M r c v.

Definition fill_user (self : instance) (train : dataset)
    (M : ndarray) (user : K) : res ndarray :=
  fb ← of_option KeyError (ds_feedback train !! user);
  for_each (fill_cell self user fb) M (keys fb).

Definition create_matrix (self : instance) : res instance :=
  us ← of_option TypeError (users self);
  its ← of_option TypeError (items self);
  train ← of_option TypeError (train_set self);
  M ← for_each (fill_user self train) (zeros (length us) (length its))
             (ds_users train);
  Ok (set_matrix M self).

(** The vectors compared: the rows, or the columns when transposed. *)
Definition vectors (M : ndarray) (transposed : bool) : list (list Qc) :=
  rows (if transposed then transpose M else M).

(** [pdist(X, name)], for the names whose distance is a function of the
    two vectors alone ([metric_of] gives it); the metrics scipy fits to
    the whole matrix (mahalanobis, seuclidean) have no model here. *)
Definition pdist (X : list (list Qc)) (name : string) : res (list fval) :=
  d ← of_option ValueError (metric_of name);
  Ok (pdist_with d X).

Definition nan_to_one (d : fval) : fval := if isnan d then one else d.

Definition compute_similarity (self : instance) (transposed : bool)
    : res (list (list fval)) :=
  M ← of_option (if transposed then AttributeError else ValueError)
                (matrix self);
  v ← pdist (vectors M transposed) (similarity_metric self);
  D ← squareform v;
  let D := amap float32 D in
  let D := amap nan_to_one D in
  mx ← amax D;
  Ok (amap (λ d, fdiv (fsub mx d) mx) D).

(** A call of the writer collaborator:
    [WriteFile(file, data=..., sep=...).write()]. *)
Record write_call := WriteFile {
  wc_file : string;
  wc_data : list (K * K * Qc);
  wc_sep : string
}.

(** [write_ranking] leaves the instance as it is; its result here is the
    list of writer calls it makes. *)
Definition write_ranking (self : instance) : list write_call :=
  match output_file self with
  | Some f => [WriteFile f (ranking self) (sep self)]
  | None => []
  end.

Definition compute (self : instance) (verbose_arg : bool) : res instance :=
  self ← read_data self;
  let self := set_ranking [] self in
  if verbose_arg || verbose self then
    (* 'Item Recommendation > ' + self.recommender_name *)
    _ ← of_option TypeError (recommender_name self);
    Ok self
  else Ok self.

(** Assignments made from outside between two runs (a cross-validation
    driver points the instance at the next fold). *)
Definition set_files (tr : source) (te : option source) (self : instance)
    : instance :=
  {| train_file := tr; test_file := te;
     as_binary := as_binary self;
     similarity_metric := similarity_metric self;
     output_file := output_file self; rank_length := rank_length self;
     sep := sep self; output_sep := output_sep self;
     verbose := verbose self;
     item_to_item_id := item_to_item_id self;
     item_id_to_item := item_id_to_item self;
     user_to_user_id := user_to_user_id self;
     user_id_to_user := user_id_to_user self;
     train_set := train_set self; test_set := test_set self;
     users := users self; items := items self;
     matrix := matrix self; recommender_name := recommender_name self;
     ranking := ranking self |}.

(** *** Vocabulary of the statements *)

(** The reader calls of [read_data] return [train] and, when a test
    source is configured, [test]. *)
Definition loads (self : instance) (train : dataset)
    (test : option dataset) : Prop :=
  read_source (train_file self) (sep self) (as_binary self) = Ok train ∧
  match test_file self with
  | Some tf => ∃ t, test = Some t ∧ read_source tf (sep self) false = Ok t
  | None => test = None
  end.

(** The entity list [read_data] stores for one kind of entity. *)
Definition universe (proj : dataset → list K) (train : dataset)
    (test : option dataset) : list K :=
  match test with
  | Some t => sorted (elements (set_of (proj train ++ proj t)))
  | None => proj train
  end.

(** No identifier map holds an entry, as after [__init__]. *)
Definition fresh (self : instance) : Prop :=
  item_to_item_id self = ∅ ∧ item_id_to_item self = ∅ ∧
  user_to_user_id self = ∅ ∧ user_id_to_user self = ∅.


(** The same, in a form that can be decided. *)
Definition valid_dataset_check (d : dataset) : Prop :=
  NoDup (ds_users d) ∧ NoDup (ds_items d) ∧
  Forall (λ u, is_Some (ds_feedback d !! u)) (ds_users d) ∧
  map_Forall (λ u fb, u ∈ ds_users d ∧ NoDup (keys fb) ∧
                      Forall (λ i, i ∈ ds_items d) (keys fb))
             (ds_feedback d).

#[global] Instance valid_dataset_check_dec d :
  Decision (valid_dataset_check d).
Proof. unfold valid_dataset_check. apply _. Defined.







End Recommender.

Section Equality.
Context {K : Type} `{Countable K} {frame : Type} `{!EqDecision frame}.

#[global] Instance dataset_eq_dec : EqDecision (@dataset K _ _).
Proof. solve_decision. Defined.

#[global] Instance source_eq_dec : EqDecision (@source frame).
Proof. solve_decision. Defined.

#[global] Instance instance_eq_dec : EqDecision (@instance K _ _ frame).
Proof. solve_decision. Defined.

#[global] Instance write_call_eq_dec : EqDecision (@write_call K).
Proof. solve_decision. Defined.
End Equality.


(** *** The similarity matrix in the words of the specification *)

(** Step 1: the distance between every pair of vectors, zero on the
    diagonal. *)
Definition distance_matrix (dist : list Qc → list Qc → fval)
    (X : list (list Qc)) : list (list fval) :=
  imap (λ i u, imap (λ j v, if decide (i = j) then zero else dist u v) X) X.

(** The vectors compared: the rows of the feedback matrix, or its columns
    when transposed; column [j] holds cell [(i, j)] of every row [i]. *)
Definition column (M : ndarray) (j : nat) : list Qc :=
  (λ i, default 0%Qc (cell M i j)) <$> seq 0 (nrows M).

Definition compared (M : ndarray) (transposed : bool) : list (list Qc) :=
  if transposed then column M <$> seq 0 (ncols M) else rows M.

(** A distance reduced to single precision. *)
Definition narrowed (dist : list Qc → list Qc → fval)
    (u v : list Qc) : fval :=
  float32 (dist u v).


(** What [squareform] makes of the condensed vector whatever the metric:
    above the diagonal the distance as [pdist] computed it, below the
    diagonal its mirror image. *)
Definition mirrored (dist : list Qc → list Qc → fval)
    (X : list (list Qc)) : list (list fval) :=
  imap (λ i u, imap (λ j v,
          if decide (i = j) then zero
          else if decide (i < j) then dist u v else dist v u) X) X.

(** [g] is the one maximum of all the entries of [D]. *)
Definition is_global_max (g : fval) (D : list (list fval)) : Prop :=
  g ∈ mjoin D ∧ ∀ d, d ∈ mjoin D → fle d g.

(** Steps 2 and 3 for a normalizer [g]. *)
Definition normalized (g : fval) (D : list (list fval)) : list (list fval) :=
  amap (λ d, fdiv (fsub g d) g) D.


(** Entry [(i, j)] of a two-dimensional array. *)
Definition entry {A} (D : list (list A)) (i j : nat) : option A :=
  D !! i ≫= (.!! j).

(** ** Some of scipy's metrics whose values are rational *)

Module Metrics.

Local Open Scope Qc_scope.

Definition Qcabs' (x : Qc) : Qc := if decide (x < 0) then - x else x.

(** [cityblock]: the sum of [|u_i - v_i|] *)
Definition cityblock (u v : list Qc) : fval :=
  Fin (Qcsum (zip_with (λ a b, Qcabs' (a - b)) u v)).

(** [sqeuclidean]: the sum of [(u_i - v_i)^2] *)
Definition sqeuclidean (u v : list Qc) : fval :=
  Fin (Qcsum (zip_with (λ a b, (a - b) * (a - b)) u v)).

(** [braycurtis]: the sum of [|u_i - v_i|] over the sum of [|u_i + v_i|],
    undefined between two zero vectors, infinite between two other
    vectors whose second sum is zero. *)
Definition braycurtis (u v : list Qc) : fval :=
  fdiv (Fin (Qcsum (zip_with (λ a b, Qcabs' (a - b)) u v)))
       (Fin (Qcsum (zip_with (λ a b, Qcabs' (a + b)) u v))).

Definition dot (u v : list Qc) : Qc := Qcsum (zip_with Qcmult u v).

(** The square root of a rational that is the square of a rational
    (the integer square roots of numerator and denominator otherwise). *)
Definition Qc_sqrt (q : Qc) : Qc :=
  Q2Qc (Z.sqrt (Qnum q) # Pos.sqrt (Qden q)).

(** [cosine]: one minus the dot product over the product of the norms,
    undefined when a vector is zero.  Exact on vectors of rational norm,
    the only ones it is used on below. *)
Definition cosine (u v : list Qc) : fval :=
  fsub one (fdiv (Fin (dot u v))
                 (Fin (Qc_sqrt (dot u u) * Qc_sqrt (dot v v)))).

Definition by_name (name : string) : option (list Qc → list Qc → fval) :=
  if decide (name = "cityblock") then Some cityblock
  else if decide (name = "sqeuclidean") then Some sqeuclidean
  else if decide (name = "braycurtis") then Some braycurtis
  else if decide (name = "cosine") then Some cosine
  else None.

End Metrics.

(** ** Concrete runs *)

Module Examples.

Local Open Scope Z_scope.

(** Integer feedback values. *)
Definition q (n : Z) : Qc := Qc_of_Z n.

Definition dataset := @dataset Z _ _.
Definition instance := @instance Z _ _ Empty_set.

(** The train rows (1, 10, 5), (1, 20, 3), (2, 10, 4). *)
Definition train_a : dataset :=
  {| ds_users := [1; 2]; ds_items := [10; 20];
     ds_feedback := {[ 1 := [(10, q 5); (20, q 3)]; 2 := [(10, q 4)] ]};
     ds_number_interactions := 3; ds_sparsity := (q 1 / q 4)%Qc |}.

(** The same rows from a reader that lists entities as they come. *)
Definition train_unsorted : dataset :=
  {| ds_users := [2; 1]; ds_items := [20; 10];
     ds_feedback := {[ 1 := [(10, q 5); (20, q 3)]; 2 := [(10, q 4)] ]};
     ds_number_interactions := 3; ds_sparsity := (q 1 / q 4)%Qc |}.

(** The test rows (2, 20, 1), (3, 30, 2): user 3 and item 30 are not in
    the train set. *)
Definition test_b : dataset :=
  {| ds_users := [2; 3]; ds_items := [20; 30];
     ds_feedback := {[ 2 := [(20, q 1)]; 3 := [(30, q 2)] ]};
     ds_number_interactions := 2; ds_sparsity := (q 1 / q 2)%Qc |}.

(** A second fold with fewer entities: the row (1, 10, 5). *)
Definition train_c : dataset :=
  {| ds_users := [1]; ds_items := [10];
     ds_feedback := {[ 1 := [(10, q 5)] ]};
     ds_number_interactions := 1; ds_sparsity := 0%Qc |}.

(** A train source without rows. *)
Definition train_empty : dataset :=
  {| ds_users := []; ds_items := []; ds_feedback := ∅;
     ds_number_interactions := 0; ds_sparsity := 0%Qc |}.

(** The readers: a small file system, and no data frames. *)
Definition ReadFile (path sep : string) (as_binary : bool) : res dataset :=
  if decide (path = "train_a") then Ok train_a
  else if decide (path = "train_unsorted") then Ok train_unsorted
  else if decide (path = "test_b") then Ok test_b
  else if decide (path = "train_c") then Ok train_c
  else if decide (path = "empty") then Ok train_empty
  else Raise (ReaderError "no such file").

Definition ReadDataframe (df : Empty_set) (as_binary : bool) : res dataset :=
  match df with end.

(** A reader that lists entities as often as they occur in the rows
    (1, 10, 5), (2, 10, 4), (1, 20, 3). *)
Definition train_repeated : dataset :=
  {| ds_users := [1; 2; 1]; ds_items := [10; 10; 20];
     ds_feedback := {[ 1 := [(10, q 5); (20, q 3)]; 2 := [(10, q 4)] ]};
     ds_number_interactions := 3; ds_sparsity := (q 1 / q 4)%Qc |}.

Definition ReadFile_repeated (path sep : string) (as_binary : bool)
    : res dataset :=
  Ok train_repeated.

(** A distance that depends on its first argument only. *)
Definition lopsided (u v : list Qc) : fval := Fin (Qcsum u).

Definition lopsided_only (name : string)
    : option (list Qc → list Qc → fval) :=
  Some lopsided.

Definition read_data_repeated :=
  read_data Z.le ReadFile_repeated ReadDataframe.
Definition compute_similarity_lopsided :=
  compute_similarity (K := Z) (frame := Empty_set) lopsided_only.

Definition read_data := read_data Z.le ReadFile ReadDataframe.
Definition compute := compute Z.le ReadFile ReadDataframe.
Definition compute_similarity :=
  compute_similarity (K := Z) (frame := Empty_set) Metrics.by_name.

(** An instance as the constructor leaves it. *)
Definition new (train : string) (test : option string) (metric : string)
    : instance :=
  init (Path train) (Path <$> test) (Some "ranking.dat") false 10 metric
       "," ";" false.

(** An instance holding a feedback matrix. *)
Definition with_matrix (rows : list (list Qc)) (n : nat) (metric : string)
    : instance :=
  set_matrix {| ncols := n; rows := rows |} (new "train_a" None metric).

(** Two identical rows. *)
Definition identical_rows : list (list Qc) := [[q 1; q 2]; [q 1; q 2]].

(** A zero row and two rows of norm 5. *)
Definition rows_345 : list (list Qc) := [[q 0; q 0]; [q 3; q 4]; [q 4; q 3]].

Definition rows_a : list (list Qc) := [[q 5; q 3]; [q 4; q 0]].


(** An instance whose maps were built for the smaller fold and whose
    train set was replaced afterwards. *)
Definition outgrown : instance :=
  match read_data (new "train_c" None "cityblock") with
  | Ok s => set_data train_a None [1] [10] s
  | Raise _ => new "train_c" None "cityblock"
  end.

(** Two runs on one instance, as a cross-validation driver makes them:
    the first fold, a ranking stored by the algorithm, the second fold. *)
Definition two_runs : res instance :=
  s ← compute (new "train_a" None "cityblock") false;
  compute (set_files (Path "train_c") None
             (set_ranking [(1, 10, q 1)] s)) false.

(** The second fold on an instance of its own. *)
Definition one_run : res instance :=
  compute (new "train_c" None "cityblock") false.

(** The instance after [read_data] on train and test set, after
    [create_matrix], and pointed at the smaller fold. *)
Definition loaded : instance :=
  match read_data (new "train_a" (Some "test_b") "cityblock") with
  | Ok s => s
  | Raise _ => new "train_a" (Some "test_b") "cityblock"
  end.

Definition built : instance :=
  match create_matrix loaded with
  | Ok s => s
  | Raise _ => loaded
  end.

Definition refolded : instance := set_files (Path "train_c") None built.

End Examples.

(** * Properties *)

(** ** The loops that assign dense indices *)

Section IndexEntities.
Context {K : Type} `{Countable K}.
Implicit Types (l : list K) (f : gmap K nat) (b : gmap nat K).

Lemma enumerate_snoc l x :
  enumerate (l ++ [x]) = enumerate l ++ [(length l, x)].
Proof.
  unfold enumerate. rewrite imap_app. simpl. by rewrite Nat.add_0_r.
Qed.

Lemma index_entities_snoc l x f b :
  index_entities (l ++ [x]) f b =
    let '(f1, b1) := index_entities l f b in
    (<[x := length l]> f1, <[length l := x]> b1).
Proof.
  unfold index_entities. rewrite enumerate_snoc, foldl_app. simpl.
  by destruct (foldl _ _ _).
Qed.

Lemma index_entities_nil f b : index_entities [] f b = (f, b).
Proof. done. Qed.

(** The reverse map holds the list, over what it held before. *)
Lemma index_entities_bwd l f b k :
  (index_entities l f b).2 !! k =
    match l !! k with Some x => Some x | None => b !! k end.
Proof.
  induction l as [|x l IH] using rev_ind; [done|].
  rewrite index_entities_snoc. destruct (index_entities l f b) as [f1 b1].
  simpl in *. destruct (decide (k = length l)) as [->|Hne].
  - rewrite lookup_insert_eq. by rewrite list_lookup_middle.
  - rewrite lookup_insert_ne by done. rewrite IH.
    destruct (decide (k < length l)) as [Hlt|Hge].
    + by rewrite lookup_app_l.
    + rewrite (lookup_ge_None_2 l k) by lia.
      rewrite lookup_ge_None_2; [done|]. rewrite length_app. simpl. lia.
Qed.

(** A key outside the list keeps its entry. *)
Lemma index_entities_fwd_notin l f b x :
  x ∉ l → (index_entities l f b).1 !! x = f !! x.
Proof.
  induction l as [|y l IH] using rev_ind; [done|].
  rewrite index_entities_snoc. destruct (index_entities l f b) as [f1 b1].
  simpl in *. intros Hx. rewrite not_elem_of_app in Hx. destruct Hx as [Hx Hy].
  rewrite lookup_insert_ne by set_solver. by apply IH.
Qed.

(** A key of a duplicate-free list is sent to its position. *)
Lemma index_entities_fwd l f b k x :
  NoDup l → l !! k = Some x → (index_entities l f b).1 !! x = Some k.
Proof.
  induction l as [|y l IH] using rev_ind; [done|].
  rewrite index_entities_snoc. destruct (index_entities l f b) as [f1 b1].
  simpl in *. intros Hnd Hk. apply NoDup_app in Hnd as (Hnd & Hdis & _).
  destruct (decide (k = length l)) as [->|Hne].
  - rewrite list_lookup_middle in Hk by done. simplify_eq.
    apply lookup_insert_eq.
  - assert (k < length l).
    { apply lookup_lt_Some in Hk. rewrite length_app in Hk. simpl in Hk. lia. }
    rewrite lookup_app_l in Hk by done.
    rewrite lookup_insert_ne; [by apply IH|].
    intros ->. apply (Hdis x); [by eapply list_elem_of_lookup_2|apply list_elem_of_here].
Qed.

(** Whatever the forward map holds afterwards is a position of the list
    or an entry it held before for a key outside the list. *)
Lemma index_entities_fwd_inv l f b x k :
  NoDup l → (index_entities l f b).1 !! x = Some k →
  l !! k = Some x ∨ (x ∉ l) ∧ f !! x = Some k.
Proof.
  intros Hnd Hk. destruct (decide (x ∈ l)) as [Hin|Hnin].
  - left. apply list_elem_of_lookup in Hin as [k' Hk'].
    rewrite (index_entities_fwd _ _ _ _ _ Hnd Hk') in Hk. by simplify_eq.
  - right. by rewrite index_entities_fwd_notin in Hk.
Qed.

Lemma index_entities_fresh_size l :
  NoDup l →
  size (index_entities l ∅ ∅).1 = length l ∧
  size (index_entities l ∅ ∅).2 = length l.
Proof.
  induction l as [|y l IH] using rev_ind; [done|].
  intros Hnd. apply NoDup_app in Hnd as (Hnd & Hdis & _).
  pose proof (index_entities_fwd_notin l ∅ ∅ y) as Hf.
  pose proof (index_entities_bwd l ∅ ∅ (length l)) as Hb.
  rewrite index_entities_snoc. destruct (index_entities l ∅ ∅) as [f1 b1].
  simpl in *. destruct (IH Hnd) as [IH1 IH2].
  rewrite length_app. simpl. split.
  - rewrite map_size_insert_None; [lia|]. rewrite Hf; [done|].
    intros Hy. by apply (Hdis y Hy), list_elem_of_here.
  - rewrite map_size_insert_None; [lia|]. rewrite Hb.
    by rewrite lookup_ge_None_2.
Qed.
End IndexEntities.

(** ** [read_data] *)

Section ReadData.
Context {K : Type} `{Countable K} (le : relation K) `{!RelDecision le}.
Context {frame : Type}.

Local Abbreviation dataset := (@dataset K _ _).
Local Abbreviation instance := (@instance K _ _ frame).
Variable ReadFile : string → string → bool → res dataset.
Variable ReadDataframe : frame → bool → res dataset.
Local Abbreviation read_data := (read_data le ReadFile ReadDataframe).
Local Abbreviation compute := (compute le ReadFile ReadDataframe).
Local Abbreviation loads := (loads ReadFile ReadDataframe).
Local Abbreviation universe := (universe le).

Implicit Types (self : instance) (train : dataset) (test : option dataset).

(** [read_data] as a function of what the readers return. *)
Lemma read_data_run self train test :
  loads self train test →
  read_data self =
    Ok (set_maps
          (index_entities (universe ds_items train test)
             (item_to_item_id self) (item_id_to_item self)).1
          (index_entities (universe ds_items train test)
             (item_to_item_id self) (item_id_to_item self)).2
          (index_entities (universe ds_users train test)
             (user_to_user_id self) (user_id_to_user self)).1
          (index_entities (universe ds_users train test)
             (user_to_user_id self) (user_id_to_user self)).2
          (set_data train
             (match test with Some t => Some t | None => test_set self end)
             (universe ds_users train test)
             (universe ds_items train test) self)).
Proof.
  intros [Htr Hte]. unfold read_data. rewrite Htr. simpl.
  destruct (test_file self) as [tf|].
  - destruct Hte as (t & -> & Ht). rewrite Ht. simpl.
    by do 2 destruct (index_entities _ _ _).
  - subst test. simpl. by do 2 destruct (index_entities _ _ _).
Qed.

(** With a test source the stored list is the sorted union. *)
Lemma universe_test `{!Transitive le, !Total le} proj train t :
  StronglySorted le (universe proj train (Some t)) ∧
  NoDup (universe proj train (Some t)) ∧
  ∀ x, x ∈ universe proj train (Some t) ↔ x ∈ proj train ∨ x ∈ proj t.
Proof.
  unfold universe, sorted, set_of. split_and!.
  - apply StronglySorted_merge_sort; apply _.
  - rewrite merge_sort_Permutation. apply NoDup_elements.
  - intros x. rewrite merge_sort_Permutation, elem_of_elements,
      elem_of_list_to_set, elem_of_app. done.
Qed.

Lemma universe_NoDup proj train test :
  (test = None → NoDup (proj train)) → NoDup (universe proj train test).
Proof.
  destruct test as [t|]; simpl; [intros _|auto].
  unfold sorted. rewrite merge_sort_Permutation. apply NoDup_elements.
Qed.

(** Every position of a duplicate-free entity list is paired with its
    entity in both maps, whatever the maps held before. *)
Lemma index_entities_paired (l : list K) f b k x :
  NoDup l → l !! k = Some x →
  (index_entities l f b).1 !! x = Some k ∧
  (index_entities l f b).2 !! k = Some x.
Proof.
  intros Hnd Hk. split; [by eapply index_entities_fwd|].
  by rewrite index_entities_bwd, Hk.
Qed.

(** C4, as amended.  Without a test source the stored user and item
    lists are the lists of the train reader as they are, in its order;
    with a test source they are the duplicate-free union of the train and
    test entities in increasing order.  In both cases (the reader's lists
    being duplicate-free) position [k] of the stored list is the dense
    index of its entity in the forward and in the reverse map, so every
    test-only entity has an index as well. *)
Theorem read_data_universe `{!Transitive le, !Total le} self train test :
  loads self train test →
  (test = None → NoDup (ds_users train) ∧ NoDup (ds_items train)) →
  ∃ s' us its,
    read_data self = Ok s' ∧ users s' = Some us ∧ items s' = Some its ∧
    (test = None → us = ds_users train ∧ its = ds_items train) ∧
    (∀ t, test = Some t →
       (StronglySorted le us ∧ NoDup us ∧
        ∀ x, x ∈ us ↔ x ∈ ds_users train ∨ x ∈ ds_users t) ∧
       (StronglySorted le its ∧ NoDup its ∧
        ∀ x, x ∈ its ↔ x ∈ ds_items train ∨ x ∈ ds_items t)) ∧
    (∀ k x, us !! k = Some x →
       user_to_user_id s' !! x = Some k ∧ user_id_to_user s' !! k = Some x) ∧
    (∀ k x, its !! k = Some x →
       item_to_item_id s' !! x = Some k ∧ item_id_to_item s' !! k = Some x).
Proof.
  intros Hl Hnd. eexists _, _, _.
  split; [by apply read_data_run|]. simpl. split_and!; try done.
  - by intros ->.
  - intros t ->. split; apply universe_test.
  - intros k x. apply index_entities_paired, universe_NoDup.
    intros ?. by apply Hnd.
  - intros k x. apply index_entities_paired, universe_NoDup.
    intros ?. by apply Hnd.
Qed.

(** On empty maps the two maps are inverse to each other and as large as
    the list. *)
Lemma index_entities_fresh (l : list K) :
  NoDup l →
  let '(f, b) := index_entities l ∅ ∅ in
  (∀ x, x ∈ l → ∃ k, f !! x = Some k ∧ b !! k = Some x) ∧
  (∀ x k, f !! x = Some k ↔ b !! k = Some x) ∧
  size f = length l ∧ size b = length l.
Proof.
  intros Hnd.
  pose proof (index_entities_fwd l ∅ ∅) as Hf.
  pose proof (index_entities_fwd_inv l ∅ ∅) as Hfi.
  pose proof (index_entities_bwd l ∅ ∅) as Hb.
  pose proof (index_entities_fresh_size l Hnd) as [Hs1 Hs2].
  destruct (index_entities l ∅ ∅) as [f b]. simpl in *. split_and!; try done.
  - intros x [k Hk]%list_elem_of_lookup. exists k.
    split; [by apply Hf|]. by rewrite Hb, Hk.
  - intros x k. split.
    + intros Hx. destruct (Hfi x k Hnd Hx) as [Hk|[_ ?]]; [|done].
      by rewrite Hb, Hk.
    + rewrite Hb. destruct (l !! k) as [y|] eqn:Hk; [|done].
      intros [= ->]. by apply Hf.
Qed.

(** C5.  On a fresh instance, with readers that list distinct entities,
    the identifier maps [read_data] builds are a bijection between the
    entity list and its indices: the reverse map undoes the forward map
    on every user and item of the universe, the two maps hold the same
    pairs, and each has as many entries as the universe has entities. *)
Theorem read_data_bijection self train test :
  fresh self →
  loads self train test →
  (test = None → NoDup (ds_users train) ∧ NoDup (ds_items train)) →
  ∃ s' us its,
    read_data self = Ok s' ∧ users s' = Some us ∧ items s' = Some its ∧
    (∀ x, x ∈ us →
       ∃ k, user_to_user_id s' !! x = Some k ∧ user_id_to_user s' !! k = Some x) ∧
    (∀ x, x ∈ its →
       ∃ k, item_to_item_id s' !! x = Some k ∧ item_id_to_item s' !! k = Some x) ∧
    (∀ x k, user_to_user_id s' !! x = Some k ↔ user_id_to_user s' !! k = Some x) ∧
    (∀ x k, item_to_item_id s' !! x = Some k ↔ item_id_to_item s' !! k = Some x) ∧
    size (user_to_user_id s') = length us ∧
    size (user_id_to_user s') = length us ∧
    size (item_to_item_id s') = length its ∧
    size (item_id_to_item s') = length its.
Proof.
  intros (Hi1 & Hi2 & Hu1 & Hu2) Hl Hnd. eexists _, _, _.
  split; [by apply read_data_run|]. simpl.
  rewrite Hi1, Hi2, Hu1, Hu2.
  assert (NoDup (universe ds_users train test)) as Hndu.
  { apply universe_NoDup. intros ?. by apply Hnd. }
  assert (NoDup (universe ds_items train test)) as Hndi.
  { apply universe_NoDup. intros ?. by apply Hnd. }
  pose proof (index_entities_fresh _ Hndu) as Hu.
  pose proof (index_entities_fresh _ Hndi) as Hi.
  destruct (index_entities (universe ds_users train test) ∅ ∅).
  destruct (index_entities (universe ds_items train test) ∅ ∅).
  simpl. destruct Hu as (?&?&?&?), Hi as (?&?&?&?). by split_and!.
Qed.

(** C6, as amended.  An empty train entity set raises nothing: without a
    test source [read_data] returns with empty user and item lists and
    the identifier maps it was given, and [compute] returns as well
    (when it prints the header, provided the recommender has a name). *)
Theorem read_data_empty_train self train verbose_arg :
  test_file self = None →
  read_source ReadFile ReadDataframe
    (train_file self) (sep self) (as_binary self) = Ok train →
  ds_users train = [] → ds_items train = [] →
  (verbose_arg || verbose self = true → is_Some (recommender_name self)) →
  ∃ s',
    read_data self = Ok s' ∧
    compute self verbose_arg = Ok (set_ranking [] s') ∧
    train_set s' = Some train ∧
    users s' = Some [] ∧ items s' = Some [] ∧
    user_to_user_id s' = user_to_user_id self ∧
    user_id_to_user s' = user_id_to_user self ∧
    item_to_item_id s' = item_to_item_id self ∧
    item_id_to_item s' = item_id_to_item self.
Proof.
  intros Hte Htr Hus Hits Hname.
  assert (loads self train None) as Hl.
  { split; [done|]. by rewrite Hte. }
  eexists. split; [by apply read_data_run|].
  unfold compute. rewrite (read_data_run _ _ _ Hl). simpl.
  rewrite Hus, Hits. simpl. split_and!; try done.
  destruct (verbose_arg || verbose self); [|done].
  by destruct Hname as [n ->].
Qed.

End ReadData.

(** ** Loops that can raise *)

Section ForEach.
Context {A B : Type}.
Implicit Types (body : B → A → res B) (l : list A).



(** An invariant of the body holds after the loop. *)
Lemma for_each_inv body (P : B → Prop) acc l acc' :
  P acc →
  (∀ acc x acc', P acc → x ∈ l → body acc x = Ok acc' → P acc') →
  for_each body acc l = Ok acc' → P acc'.
Proof.
  revert acc. induction l as [|x l IH]; intros acc HP Hpres; simpl.
  - by intros [= <-].
  - destruct (body acc x) as [acc1|e] eqn:Hb; simpl; [|done].
    apply IH.
    + eapply Hpres; [done|apply list_elem_of_here|done].
    + intros ?????. eapply Hpres; [done|by apply list_elem_of_further].
Qed.

(** If the body can only raise [e], and does raise at some element, the
    loop raises [e]. *)
Lemma for_each_raises body (P : B → Prop) e acc l x :
  P acc → x ∈ l →
  (∀ acc y, P acc → y ∈ l →
     body acc y = Raise e ∨ ∃ acc', body acc y = Ok acc' ∧ P acc') →
  (∀ acc, P acc → body acc x = Raise e) →
  for_each body acc l = Raise e.
Proof.
  revert acc. induction l as [|y l IH]; intros acc HP Hx Hstep Hbad.
  { by apply elem_of_nil in Hx. }
  simpl. apply elem_of_cons in Hx as [->|Hx].
  { by rewrite Hbad. }
  destruct (Hstep acc y HP) as [->|(acc' & -> & HP')];
    [apply list_elem_of_here|done|]. simpl.
  apply IH; [done..| |done].
  intros ????. apply Hstep; [done|by apply list_elem_of_further].
Qed.

(** If every step raises [e] or keeps the invariant, so does the loop. *)
Lemma for_each_cases body (P : B → Prop) e acc l :
  P acc →
  (∀ acc y, P acc → y ∈ l →
     body acc y = Raise e ∨ ∃ acc', body acc y = Ok acc' ∧ P acc') →
  for_each body acc l = Raise e ∨ ∃ acc', for_each body acc l = Ok acc' ∧ P acc'.
Proof.
  revert acc. induction l as [|y l IH]; intros acc HP Hstep; simpl.
  { right. by exists acc. }
  destruct (Hstep acc y HP) as [->|(acc' & -> & HP')];
    [apply list_elem_of_here|by left|]. simpl.
  apply IH; [done|].
  intros ????. apply Hstep; [done|by apply list_elem_of_further].
Qed.
End ForEach.

(** ** Arrays *)

Section Ndarray.
Local Open Scope Qc_scope.
Implicit Types (M : ndarray) (r c : nat) (v : Qc).

Lemma Qcsum_app (l1 l2 : list Qc) : Qcsum (l1 ++ l2) = Qcsum l1 + Qcsum l2.
Proof.
  induction l1 as [|x l1 IH]; simpl; [by rewrite Qcplus_0_l|].
  rewrite IH. ring.
Qed.



Lemma setitem_ok M r c v row :
  rows M !! r = Some row → (c < length row)%nat →
  setitem M r c v =
    Ok {| ncols := ncols M; rows := <[r := <[c := v]> row]> (rows M) |}.
Proof. intros Hr Hc. unfold setitem. rewrite Hr. simpl. by case_decide. Qed.

Lemma setitem_inv M r c v M' :
  setitem M r c v = Ok M' →
  ∃ row, rows M !! r = Some row ∧ (c < length row)%nat ∧
    M' = {| ncols := ncols M; rows := <[r := <[c := v]> row]> (rows M) |}.
Proof.
  unfold setitem. destruct (rows M !! r) as [row|]; simpl; [|done].
  case_decide; [|done]. intros [= <-]. eauto.
Qed.

(** An assignment keeps the shape of the array. *)
Lemma setitem_shape M r c v M' :
  setitem M r c v = Ok M' →
  nrows M' = nrows M ∧ ncols M' = ncols M ∧ (well_shaped M → well_shaped M').
Proof.
  intros (row & Hr & Hc & ->)%setitem_inv. unfold nrows, well_shaped. simpl.
  rewrite length_insert. split_and!; [done..|].
  intros Hws. apply Forall_insert; [done|]. rewrite length_insert.
  by eapply (Forall_lookup_1 _ _ _ _ Hws).
Qed.



Lemma zeros_shape n m :
  nrows (zeros n m) = n ∧ ncols (zeros n m) = m ∧ well_shaped (zeros n m).
Proof.
  unfold nrows, well_shaped, zeros. simpl. rewrite length_replicate.
  split_and!; [done..|]. apply Forall_replicate, length_replicate.
Qed.



Lemma cell_is_Some M r c :
  well_shaped M → (r < nrows M)%nat → (c < ncols M)%nat →
  is_Some (cell M r c).
Proof.
  intros Hws Hr Hc. unfold cell.
  destruct (lookup_lt_is_Some_2 (rows M) r Hr) as [row Hrow].
  rewrite Hrow. simpl. apply lookup_lt_is_Some_2.
  by rewrite (Forall_lookup_1 _ _ _ _ Hws Hrow).
Qed.
End Ndarray.

Section AssignAll.
Local Open Scope Qc_scope.
Implicit Types (M : ndarray) (ws : list (nat * nat * Qc)).



End AssignAll.

(** ** [create_matrix] *)

Section CreateMatrix.
Context {K : Type} `{Countable K} {frame : Type}.

Local Abbreviation dataset := (@dataset K _ _).
Local Abbreviation instance := (@instance K _ _ frame).

Implicit Types (self : instance) (train : dataset) (M : ndarray).
Implicit Types (fb : list (K * Qc)) (us its : list K).


Lemma dict_get_None fb k : k ∉ keys fb → dict_get k fb = None.
Proof.
  induction fb as [|[k' v'] fb IH]; [done|].
  unfold keys. rewrite fmap_cons, not_elem_of_cons. intros [Hne Hnin].
  simpl in *. rewrite decide_False by done. by apply IH.
Qed.











Lemma dict_get_keys fb k : k ∈ keys fb → is_Some (dict_get k fb).
Proof.
  induction fb as [|[k' v'] fb IH]; [by intros ?%elem_of_nil|].
  unfold keys. rewrite fmap_cons. simpl.
  intros [->|Hin]%elem_of_cons.
  - rewrite decide_True by done. by eexists.
  - case_decide; [by eexists|by apply IH].
Qed.

(** With identifier maps whose indices are within the array, the only
    exception of the loop body is [KeyError]. *)
Lemma fill_cell_cases self us its u fb M i :
  (∀ x k, user_to_user_id self !! x = Some k → k < length us) →
  (∀ x k, item_to_item_id self !! x = Some k → k < length its) →
  shaped (length us) (length its) M →
  fill_cell self u fb M i = Raise KeyError ∨
  ∃ M', fill_cell self u fb M i = Ok M' ∧ shaped (length us) (length its) M'.
Proof.
  intros Hur Hir (Hn & Hm & Hws). unfold fill_cell.
  destruct (dict_get i fb) as [v|]; simpl; [|by left].
  destruct (user_to_user_id self !! u) as [r|] eqn:Hr; simpl; [|by left].
  apply Hur in Hr. rewrite <-Hn in Hr.
  destruct (lookup_lt_is_Some_2 (rows M) r Hr) as [row Hrow].
  rewrite Hrow. simpl.
  destruct (item_to_item_id self !! i) as [c|] eqn:Hc; simpl; [|by left].
  apply Hir in Hc. right.
  assert (c < length row) as Hlt.
  { by rewrite (Forall_lookup_1 _ _ _ _ Hws Hrow), Hm. }
  rewrite (setitem_ok _ _ _ _ _ Hrow Hlt). eexists. split; [done|].
  destruct (setitem_shape _ _ _ _ _ (setitem_ok _ _ _ v _ Hrow Hlt))
    as (Hn' & Hm' & Hws').
  split_and!; [by rewrite Hn'|by rewrite Hm'|by apply Hws'].
Qed.

Lemma fill_user_cases self train us its M u :
  (∀ x k, user_to_user_id self !! x = Some k → k < length us) →
  (∀ x k, item_to_item_id self !! x = Some k → k < length its) →
  shaped (length us) (length its) M →
  fill_user self train M u = Raise KeyError ∨
  ∃ M', fill_user self train M u = Ok M' ∧ shaped (length us) (length its) M'.
Proof.
  intros Hur Hir HM. unfold fill_user.
  destruct (ds_feedback train !! u) as [fb|]; simpl; [|by left].
  apply for_each_cases; [done|].
  intros M1 i HM1 _. by apply fill_cell_cases.
Qed.

(** C7, as amended.  When a listed train user has an interaction whose
    user or item has no entry in the identifier maps, [create_matrix]
    raises Python's [KeyError] (the indices the maps do hold being within
    the array) and returns no matrix. *)
Theorem create_matrix_unmapped self train us its u fb i :
  users self = Some us → items self = Some its →
  train_set self = Some train →
  u ∈ ds_users train → ds_feedback train !! u = Some fb → i ∈ keys fb →
  user_to_user_id self !! u = None ∨ item_to_item_id self !! i = None →
  (∀ x k, user_to_user_id self !! x = Some k → k < length us) →
  (∀ x k, item_to_item_id self !! x = Some k → k < length its) →
  create_matrix self = Raise KeyError.
Proof.
  intros Hus Hits Htr Hu Hfb Hi Hbad Hur Hir.
  unfold create_matrix. rewrite Hus, Hits, Htr. simpl.
  rewrite (for_each_raises _ (shaped (length us) (length its))
             KeyError _ _ u); [done| |done| |].
  - apply zeros_shape.
  - intros M y HM _. by apply fill_user_cases.
  - intros M HM. unfold fill_user. rewrite Hfb. simpl.
    apply (for_each_raises _ (shaped (length us) (length its)) _ _ _ i);
      [done..| |].
    + intros M1 y HM1 _. by apply fill_cell_cases.
    + intros M1 (Hn & Hm & Hws). unfold fill_cell.
      destruct (dict_get_keys fb i Hi) as [v ->]. simpl.
      destruct (user_to_user_id self !! u) as [r|] eqn:Hr; simpl; [|done].
      apply Hur in Hr. rewrite <-Hn in Hr.
      destruct (lookup_lt_is_Some_2 (rows M1) r Hr) as [row ->]. simpl.
      by destruct Hbad as [?| ->].
Qed.
End CreateMatrix.

(** ** [read_data] followed by [create_matrix] *)

Section Pipeline.
Context {K : Type} `{Countable K} (le : relation K) `{!RelDecision le}.
Context {frame : Type}.

Local Abbreviation dataset := (@dataset K _ _).
Local Abbreviation instance := (@instance K _ _ frame).
Variable ReadFile : string → string → bool → res dataset.
Variable ReadDataframe : frame → bool → res dataset.

Local Abbreviation read_data := (read_data le ReadFile ReadDataframe).
Local Abbreviation compute := (compute le ReadFile ReadDataframe).
Local Abbreviation loads := (loads ReadFile ReadDataframe).
Local Abbreviation universe := (universe le).

Implicit Types (self : instance) (train : dataset) (test : option dataset).




(** *** Reuse of an instance *)

(** [compute] leaves an empty ranking. *)
Lemma compute_resets_ranking self verbose_arg s' :
  compute self verbose_arg = Ok s' → ranking s' = [].
Proof.
  unfold compute. destruct (read_data self) as [s1|]; simpl; [|done].
  destruct (verbose_arg || verbose s1); simpl.
  - destruct (recommender_name s1); simpl; [|done]. by intros [= <-].
  - by intros [= <-].
Qed.

(** [read_data] updates the identifier maps it finds: an entry for an
    entity that is not in the new universe stays. *)
Lemma read_data_keeps_entries self train test s' x :
  loads self train test → read_data self = Ok s' →
  (x ∉ universe ds_items train test →
     item_to_item_id s' !! x = item_to_item_id self !! x) ∧
  (x ∉ universe ds_users train test →
     user_to_user_id s' !! x = user_to_user_id self !! x).
Proof.
  intros Hl. rewrite (read_data_run _ _ _ _ _ _ Hl). intros [= <-]. simpl.
  split; apply index_entities_fwd_notin.
Qed.

(** The reverse maps keep every index beyond the new universe. *)
Lemma read_data_keeps_indices self train test s' k :
  loads self train test → read_data self = Ok s' →
  (length (universe ds_items train test) ≤ k →
     item_id_to_item s' !! k = item_id_to_item self !! k) ∧
  (length (universe ds_users train test) ≤ k →
     user_id_to_user s' !! k = user_id_to_user self !! k).
Proof.
  intros Hl. rewrite (read_data_run _ _ _ _ _ _ Hl). intros [= <-]. simpl.
  split; intros Hk; by rewrite index_entities_bwd, lookup_ge_None_2.
Qed.

(** *** [write_ranking] *)

Lemma write_ranking_skipped self :
  output_file self = None → write_ranking self = [].
Proof. unfold write_ranking. by intros ->. Qed.

Lemma write_ranking_call self f :
  output_file self = Some f →
  write_ranking self = [WriteFile f (ranking self) (sep self)].
Proof. unfold write_ranking. by intros ->. Qed.
End Pipeline.

(** ** numpy values: order and maximum *)

Section Fval.
Local Open Scope Qc_scope.
Implicit Types (x y z : fval).

Lemma fle_refl x : x ≠ NaN → fle x x.
Proof. destruct x; simpl; intros ?; first [done|apply Qcle_refl]. Qed.

Lemma fle_trans x y z : fle x y → fle y z → fle x z.
Proof.
  destruct x, y, z; simpl; first [done|apply Qcle_trans].
Qed.


Lemma fle_not_nan x y : fle x y → x ≠ NaN ∧ y ≠ NaN.
Proof. by destruct x, y. Qed.

(** On values that are numbers, [fmax] is one of its arguments and
    above both. *)
Lemma fmax_spec x y :
  x ≠ NaN → y ≠ NaN →
  (fmax x y = x ∨ fmax x y = y) ∧ fle x (fmax x y) ∧ fle y (fmax x y).
Proof.
  destruct x as [a| | |], y as [b| | |]; simpl; try done; intros _ _;
    try (split_and!; (done || (by left) || (by right) || apply Qcle_refl)).
  case_decide as Hab; simpl.
  - split_and!; [by right|done|apply Qcle_refl].
  - split_and!; [by left|apply Qcle_refl|].
    apply Qclt_le_weak. by apply Qclt_nge.
Qed.

(** The fold of [amax] returns an element above all others. *)
Lemma foldl_fmax_spec (l : list fval) x :
  x ≠ NaN → Forall (.≠ NaN) l →
  foldl fmax x l ∈ x :: l ∧ ∀ y, y ∈ x :: l → fle y (foldl fmax x l).
Proof.
  revert x. induction l as [|z l IH]; intros x Hx Hl; simpl.
  { split; [apply list_elem_of_here|].
    intros y ->%list_elem_of_singleton. by apply fle_refl. }
  apply Forall_cons in Hl as [Hz Hl].
  destruct (fmax_spec x z Hx Hz) as (Hor & Hxm & Hzm).
  destruct (IH (fmax x z)) as [Hin Hub]; [by destruct Hor as [-> | ->]|done|].
  split.
  - apply elem_of_cons in Hin as [->|Hin].
    + destruct Hor as [-> | ->];
        [apply list_elem_of_here|apply list_elem_of_further, list_elem_of_here].
    + by do 2 apply list_elem_of_further.
  - intros y [->|[->|Hy]%elem_of_cons]%elem_of_cons.
    + eapply fle_trans; [done|]. apply Hub, list_elem_of_here.
    + eapply fle_trans; [done|]. apply Hub, list_elem_of_here.
    + by apply Hub, list_elem_of_further.
Qed.

Lemma amax_spec (D : list (list fval)) :
  mjoin D ≠ [] → Forall (.≠ NaN) (mjoin D) →
  ∃ g, amax D = Ok g ∧ is_global_max g D.
Proof.
  intros Hne Hnan. unfold amax, is_global_max.
  destruct (mjoin D) as [|x l]; [done|].
  apply Forall_cons in Hnan as [Hx Hl]. eexists. split; [done|].
  by apply foldl_fmax_spec.
Qed.


Lemma nan_to_one_not_nan x : nan_to_one x ≠ NaN.
Proof. by destruct x. Qed.

Lemma amap_not_nan (D : list (list fval)) :
  Forall (.≠ NaN) (mjoin (amap nan_to_one D)).
Proof.
  apply Forall_forall. intros x (r & Hx & Hr)%list_elem_of_join.
  unfold amap in Hr. apply list_elem_of_fmap in Hr as (r' & -> & _).
  apply list_elem_of_fmap in Hx as (x' & -> & _). apply nan_to_one_not_nan.
Qed.
End Fval.

(** ** The square distance matrix *)

Section Squareform.
Variable dist : list Qc → list Qc → fval.
Implicit Types (X : list (list Qc)).

Lemma length_pdist_with X :
  length (pdist_with dist X) * 2 = length X * (length X - 1).
Proof.
  induction X as [|u X IH]; [done|]. simpl.
  rewrite length_app, length_fmap, Nat.sub_0_r.
  destruct X as [|u' X]; [done|]. simpl in *. lia.
Qed.

Lemma sqrt_up_binomial n : 2 ≤ n → Nat.sqrt_up (n * (n - 1)) = n.
Proof.
  intros Hn. apply Nat.sqrt_up_unique; [lia|].
  destruct n as [|[|n]]; [lia..|]. simpl. nia.
Qed.

(** On the condensed vector of [pdist], [squareform] finds the number of
    vectors again. *)
Lemma squareform_pdist X :
  X ≠ [] →
  squareform (pdist_with dist X) =
    Ok (to_squareform (length X) (pdist_with dist X)).
Proof.
  intros HX. unfold squareform.
  pose proof (length_pdist_with X) as Hlen.
  destruct X as [|u [|u' X]]; [done|done|].
  rewrite decide_False by (simpl in *; lia).
  rewrite Hlen, sqrt_up_binomial by (simpl; lia).
  by rewrite decide_True by done.
Qed.

Lemma zip_with_cons_imap {A B} (f : A → B) (g : nat → A → list B) (l : list A) :
  zip_with cons (f <$> l) (imap g l) = imap (λ i x, f x :: g i x) l.
Proof.
  revert g. induction l as [|x l IH]; intros g; [done|].
  simpl. f_equal. apply IH.
Qed.

Lemma distance_matrix_cons u X :
  distance_matrix dist (u :: X) =
    (zero :: (dist u <$> X))
      :: zip_with cons ((λ v, dist v u) <$> X) (distance_matrix dist X).
Proof.
  unfold distance_matrix. rewrite zip_with_cons_imap, !imap_cons. f_equal.
  - f_equal. rewrite <-imap_const. by apply imap_ext.
  - apply imap_ext. intros i v _. simpl. f_equal.
    apply imap_ext. intros j w _. simpl.
    destruct (decide (i = j)) as [->|Hne].
    + by rewrite decide_True.
    + by rewrite decide_False by lia.
Qed.

(** Between vectors on which the metric is symmetric, the square form of
    the condensed vector is the matrix of all pairwise distances. *)
Lemma to_squareform_pdist X :
  (∀ u v, u ∈ X → v ∈ X → dist u v = dist v u) →
  to_squareform (length X) (pdist_with dist X) = distance_matrix dist X.
Proof.
  induction X as [|u X IH]; intros Hsym; [done|].
  rewrite distance_matrix_cons. simpl.
  rewrite take_app_length', drop_app_length' by by rewrite length_fmap.
  rewrite IH.
  - do 2 f_equal. apply list_fmap_ext. intros i v Hv.
    apply Hsym; [apply list_elem_of_here|].
    by eapply list_elem_of_further, list_elem_of_lookup_2.
  - intros v w Hv Hw. apply Hsym; by apply list_elem_of_further.
Qed.

Lemma distance_matrix_rows X : length (distance_matrix dist X) = length X.
Proof. apply length_imap. Qed.

(** The entries of the distance matrix. *)
Lemma entry_distance_matrix X i j :
  entry (distance_matrix dist X) i j =
    u ← X !! i; v ← X !! j;
    Some (if decide (i = j) then zero else dist u v).
Proof.
  unfold entry, distance_matrix. rewrite list_lookup_imap.
  destruct (X !! i) as [u|]; simpl; [|done].
  rewrite list_lookup_imap. by destruct (X !! j).
Qed.


Lemma entry_elem_of {A} (D : list (list A)) i j e :
  entry D i j = Some e → e ∈ mjoin D.
Proof.
  unfold entry. destruct (D !! i) as [r|] eqn:Hr; simpl; [|done].
  intros He. apply list_elem_of_join. exists r.
  split; by eapply list_elem_of_lookup_2.
Qed.

Lemma distance_matrix_nonempty X : X ≠ [] → mjoin (distance_matrix dist X) ≠ [].
Proof.
  destruct X as [|u X]; [done|]. intros _. by rewrite distance_matrix_cons.
Qed.

(** Narrowing the square form is taking the square form of the narrowed
    distances. *)
Lemma pdist_with_narrowed X :
  float32 <$> pdist_with dist X = pdist_with (narrowed dist) X.
Proof.
  induction X as [|u X IH]; [done|]. simpl.
  by rewrite fmap_app, IH, <-list_fmap_compose.
Qed.

Lemma float32_zero : float32 zero = zero.
Proof. by vm_compute. Qed.

Lemma zip_with_cons_fmap {A B} (f : A → B) (l : list A) (k : list (list A)) :
  map (map f) (zip_with cons l k) = zip_with cons (map f l) (map (map f) k).
Proof.
  revert k. induction l as [|x l IH]; intros [|y k]; simpl; [done..|].
  f_equal. apply IH.
Qed.

Lemma to_squareform_narrowed n (v : list fval) :
  amap float32 (to_squareform n v) = to_squareform n (float32 <$> v).
Proof.
  revert v. induction n as [|n IH]; intros v; [done|].
  unfold amap in *.
  change (to_squareform (S n) v) with
    ((zero :: take n v)
       :: zip_with cons (take n v) (to_squareform n (drop n v))).
  change (to_squareform (S n) (float32 <$> v)) with
    ((zero :: take n (float32 <$> v))
       :: zip_with cons (take n (float32 <$> v))
            (to_squareform n (drop n (float32 <$> v)))).
  rewrite !map_cons, float32_zero.
  rewrite zip_with_cons_fmap, IH. f_equal.
  - f_equal. apply fmap_take.
  - f_equal; [apply fmap_take|]. f_equal. apply fmap_drop.
Qed.

Lemma squareform_pdist_narrowed X :
  amap float32 (to_squareform (length X) (pdist_with dist X)) =
    to_squareform (length X) (pdist_with (narrowed dist) X).
Proof. by rewrite to_squareform_narrowed, pdist_with_narrowed. Qed.
End Squareform.

(** ** [compute_similarity] *)

Section Similarity.
Context {K : Type} `{Countable K} {frame : Type}.
Variable metric_of : string → option (list Qc → list Qc → fval).

Local Abbreviation instance := (@instance K _ _ frame).
Local Abbreviation compute_similarity := (compute_similarity metric_of).

Implicit Types (self : instance) (M : ndarray) (transposed : bool).
Implicit Types (dist : list Qc → list Qc → fval).

(** The method in terms of the distance matrix. *)
Lemma compute_similarity_run self M dist transposed :
  matrix self = Some M →
  metric_of (similarity_metric self) = Some dist →
  vectors M transposed ≠ [] →
  (∀ u v, u ∈ vectors M transposed → v ∈ vectors M transposed →
     dist u v = dist v u) →
  compute_similarity self transposed =
    (let D := amap nan_to_one
                (distance_matrix (narrowed dist) (vectors M transposed)) in
     mx ← amax D; Ok (normalized mx D)).
Proof.
  intros HM Hd HX Hsym. unfold compute_similarity, pdist.
  rewrite HM, Hd. simpl.
  rewrite squareform_pdist by done. simpl.
  rewrite squareform_pdist_narrowed, to_squareform_pdist; [done|].
  intros u v Hu Hv. unfold narrowed. by rewrite Hsym.
Qed.








Lemma imap_replicate {A B} (f : nat → A → B) (l : list A) (y : B) :
  (∀ i x, l !! i = Some x → f i x = y) → imap f l = replicate (length l) y.
Proof.
  revert f. induction l as [|x l IH]; intros f Hf; [done|].
  simpl. rewrite (Hf 0 x) by done. f_equal.
  apply IH. intros i x' Hi. by apply (Hf (S i)).
Qed.

Lemma distance_matrix_zero dist (X : list (list Qc)) :
  (∀ u v, u ∈ X → v ∈ X → dist u v = zero) →
  distance_matrix dist X = replicate (length X) (replicate (length X) zero).
Proof.
  intros Hz. apply imap_replicate. intros i u Hu.
  apply imap_replicate. intros j v Hv. case_decide; [done|].
  apply Hz; by eapply list_elem_of_lookup_2.
Qed.

Lemma amap_replicate (f : fval → fval) (n m : nat) (x : fval) :
  amap f (replicate n (replicate m x)) = replicate n (replicate m (f x)).
Proof. unfold amap. by rewrite !fmap_replicate. Qed.

Lemma zero_over_zero : fdiv (fsub zero zero) zero = NaN.
Proof. by vm_compute. Qed.

(** C2, where the code departs from it.  When every pairwise distance
    is zero (all vectors identical under a metric that is zero between
    equal vectors) the global maximum is zero and every entry of the
    result, on and off the diagonal, is [0 / 0]: not a number, not 1 and
    not in the unit interval. *)
Theorem compute_similarity_zero_distances self M dist transposed :
  matrix self = Some M →
  metric_of (similarity_metric self) = Some dist →
  vectors M transposed ≠ [] →
  (∀ u v, u ∈ vectors M transposed → v ∈ vectors M transposed →
     dist u v = zero) →
  compute_similarity self transposed =
    Ok (replicate (length (vectors M transposed))
          (replicate (length (vectors M transposed)) NaN)).
Proof.
  intros HM Hd HX Hz.
  rewrite (compute_similarity_run _ _ dist _ HM Hd HX).
  2:{ intros u v Hu Hv. by rewrite !Hz. }
  assert (∀ u v, u ∈ vectors M transposed → v ∈ vectors M transposed →
            narrowed dist u v = zero) as Hz'.
  { intros u v Hu Hv. unfold narrowed. rewrite Hz by done.
    apply float32_zero. }
  simpl. rewrite (distance_matrix_zero _ _ Hz'), amap_replicate.
  change (nan_to_one zero) with zero.
  destruct (amax_spec (replicate (length (vectors M transposed))
              (replicate (length (vectors M transposed)) zero)))
    as (g & Hg & [Hin _]).
  - destruct (vectors M transposed); done.
  - apply Forall_forall. intros x (r & Hx & Hr)%list_elem_of_join.
    apply elem_of_replicate_inv in Hr as ->.
    by apply elem_of_replicate_inv in Hx as ->.
  - rewrite Hg. simpl. unfold normalized. rewrite amap_replicate.
    apply list_elem_of_join in Hin as (r & Hx & Hr).
    apply elem_of_replicate_inv in Hr as ->.
    apply elem_of_replicate_inv in Hx as ->.
    by rewrite zero_over_zero.
Qed.

Lemma entry_amap (f : fval → fval) (D : list (list fval)) i j :
  entry (amap f D) i j = f <$> entry D i j.
Proof.
  unfold entry, amap. rewrite list_lookup_fmap.
  destruct (D !! i) as [r|]; simpl; [|done]. apply list_lookup_fmap.
Qed.

(** The result is symmetric. *)
Lemma compute_similarity_symmetric self M dist transposed S i j :
  matrix self = Some M →
  metric_of (similarity_metric self) = Some dist →
  vectors M transposed ≠ [] →
  (∀ u v, u ∈ vectors M transposed → v ∈ vectors M transposed →
     dist u v = dist v u) →
  compute_similarity self transposed = Ok S →
  entry S i j = entry S j i.
Proof.
  intros HM Hd HX Hsym.
  rewrite (compute_similarity_run _ _ _ _ HM Hd HX Hsym). simpl.
  destruct (amax _) as [g|]; simpl; [|done]. intros [= <-].
  unfold normalized. rewrite !entry_amap, !entry_distance_matrix.
  destruct (vectors M transposed !! i) as [u|] eqn:Hu,
    (vectors M transposed !! j) as [v|] eqn:Hv; simpl; try done.
  destruct (decide (i = j)) as [->|Hne].
  - by rewrite decide_True.
  - rewrite decide_False by done. unfold narrowed.
    by rewrite (Hsym u v) by by eapply list_elem_of_lookup_2.
Qed.

Lemma elem_of_amap (f : fval → fval) (D : list (list fval)) e :
  e ∈ mjoin (amap f D) → ∃ e', e = f e' ∧ e' ∈ mjoin D.
Proof.
  intros (r & He & Hr)%list_elem_of_join. unfold amap in Hr.
  apply list_elem_of_fmap in Hr as (r' & -> & Hr').
  apply list_elem_of_fmap in He as (e' & -> & He').
  exists e'. split; [done|]. apply list_elem_of_join. by exists r'.
Qed.



Lemma fdiv_fsub_Fin (g q : Qc) :
  g ≠ 0%Qc → fdiv (fsub (Fin g) (Fin q)) (Fin g) = Fin ((g - q) / g)%Qc.
Proof. intros Hg. simpl. by rewrite decide_False. Qed.


Lemma float32_overflow_above_zero : (0 < float32_overflow)%Qc.
Proof. by vm_compute. Qed.

Lemma float32_underflow_above_zero : (0 < float32_underflow)%Qc.
Proof. by vm_compute. Qed.



Lemma unit_interval (m q : Qc) :
  (0 < m)%Qc → (0 ≤ q)%Qc → (q ≤ m)%Qc →
  (0 ≤ (m - q) / m)%Qc ∧ ((m - q) / m ≤ 1)%Qc.
Proof.
  intros Hm Hq Hqm.
  assert (m ≠ 0%Qc) as Hm0 by (intros ->; by apply (Qclt_not_eq 0 0)%Qc).
  assert ((m - q) / m * m = m - q)%Qc as Hmul by (field; done).
  split; apply (Qcmult_lt_0_le_reg_r _ _ m Hm); rewrite Hmul.
  - rewrite Qcmult_0_l. by apply Qcle_minus_iff in Hqm.
  - rewrite Qcmult_1_l. apply Qcle_minus_iff.
    replace (m + - (m - q))%Qc with q by ring. done.
Qed.

End Similarity.

(** ** Deciding what the readers promise *)

Section ValidDataset.
Context {K : Type} `{Countable K}.

End ValidDataset.

(** ** The statements on concrete runs *)

(** A closed decidable statement, by evaluation. *)
Ltac by_evaluation := apply (bool_decide_unpack _); by vm_compute.

(** Membership in a concrete list, one element after the other. *)
Ltac each_member H :=
  repeat (apply elem_of_cons in H as [->|H]); [..|by apply elem_of_nil in H].

Section Runs.
Import Examples.
Local Open Scope Z_scope.


Lemma loads_train_a_test_b :
  loads ReadFile ReadDataframe (new "train_a" (Some "test_b") "cityblock")
    train_a (Some test_b).
Proof. split; [done|]. simpl. by eexists. Qed.

(** The run of the specification's first scenario. *)
Example scenario_a :
  (s ← read_data (new "train_a" None "cityblock");
   s ← create_matrix s;
   Ok (users s, items s, matrix s)) =
  Ok (Some [1; 2], Some [10; 20],
      Some {| ncols := 2; rows := [[q 5; q 3]; [q 4; q 0]] |}).
Proof. by_evaluation. Qed.


Lemma read_data_universe_witness :
  ∃ s' us its,
    read_data (new "train_a" (Some "test_b") "cityblock") = Ok s' ∧
    users s' = Some us ∧ items s' = Some its ∧
    (Some test_b = None → us = ds_users train_a ∧ its = ds_items train_a) ∧
    (∀ t, Some test_b = Some t →
       (StronglySorted Z.le us ∧ NoDup us ∧
        ∀ x, x ∈ us ↔ x ∈ ds_users train_a ∨ x ∈ ds_users t) ∧
       (StronglySorted Z.le its ∧ NoDup its ∧
        ∀ x, x ∈ its ↔ x ∈ ds_items train_a ∨ x ∈ ds_items t)) ∧
    (∀ k x, us !! k = Some x →
       user_to_user_id s' !! x = Some k ∧ user_id_to_user s' !! k = Some x) ∧
    (∀ k x, its !! k = Some x →
       item_to_item_id s' !! x = Some k ∧ item_id_to_item s' !! k = Some x).
Proof.
  apply (read_data_universe Z.le ReadFile ReadDataframe
           (new "train_a" (Some "test_b") "cityblock") train_a (Some test_b)).
  - apply loads_train_a_test_b.
  - intros [=].
Defined.

(** C4 fails where the reader does not sort: without a test source the
    lists are stored as they come, user 2 gets index 0 and user 1
    index 1. *)
Lemma read_data_universe_counterexample :
  ∃ s', read_data (new "train_unsorted" None "cityblock") = Ok s' ∧
    users s' = Some [2; 1] ∧ items s' = Some [20; 10] ∧
    ¬ Sorted Z.le [2; 1] ∧
    user_to_user_id s' !! 2 = Some 0%nat ∧
    user_to_user_id s' !! 1 = Some 1%nat.
Proof.
  eexists. split; [reflexivity|]. split_and!; by_evaluation.
Qed.

(** With a test source the same rows are indexed in increasing order,
    and the test-only user 3 and item 30 have indices. *)
Example read_data_sorted_union :
  (s ← read_data (new "train_unsorted" (Some "test_b") "cityblock");
   Ok (users s, items s, user_to_user_id s !! 3, item_to_item_id s !! 30)) =
  Ok (Some [1; 2; 3], Some [10; 20; 30], Some 2%nat, Some 2%nat).
Proof. by_evaluation. Qed.

Lemma read_data_bijection_witness :
  ∃ s' us its,
    read_data (new "train_a" (Some "test_b") "cityblock") = Ok s' ∧
    users s' = Some us ∧ items s' = Some its ∧
    (∀ x, x ∈ us →
       ∃ k, user_to_user_id s' !! x = Some k ∧
            user_id_to_user s' !! k = Some x) ∧
    (∀ x, x ∈ its →
       ∃ k, item_to_item_id s' !! x = Some k ∧
            item_id_to_item s' !! k = Some x) ∧
    (∀ x k, user_to_user_id s' !! x = Some k ↔
            user_id_to_user s' !! k = Some x) ∧
    (∀ x k, item_to_item_id s' !! x = Some k ↔
            item_id_to_item s' !! k = Some x) ∧
    size (user_to_user_id s') = length us ∧
    size (user_id_to_user s') = length us ∧
    size (item_to_item_id s') = length its ∧
    size (item_id_to_item s') = length its.
Proof.
  apply (read_data_bijection Z.le ReadFile ReadDataframe
           (new "train_a" (Some "test_b") "cityblock") train_a (Some test_b)).
  - by repeat split.
  - apply loads_train_a_test_b.
  - intros [=].
Defined.

Lemma read_data_empty_train_witness :
  ∃ s',
    read_data (new "empty" None "cityblock") = Ok s' ∧
    compute (new "empty" None "cityblock") false = Ok (set_ranking [] s') ∧
    train_set s' = Some train_empty ∧
    users s' = Some [] ∧ items s' = Some [] ∧
    user_to_user_id s' = ∅ ∧ user_id_to_user s' = ∅ ∧
    item_to_item_id s' = ∅ ∧ item_id_to_item s' = ∅.
Proof.
  apply (read_data_empty_train Z.le ReadFile ReadDataframe
           (new "empty" None "cityblock") train_empty false); try done.
Defined.

(** C6 fails on the empty train source: [compute] returns, and
    [create_matrix] after it builds an array without rows. *)
Lemma read_data_empty_train_counterexample :
  ∃ s' s'',
    compute (new "empty" None "cityblock") false = Ok s' ∧
    users s' = Some [] ∧ items s' = Some [] ∧
    create_matrix s' = Ok s'' ∧
    matrix s'' = Some {| ncols := 0; rows := [] |}.
Proof.
  eexists _, _. split; [reflexivity|]. split_and!; try done.
Qed.

Lemma create_matrix_unmapped_witness :
  create_matrix outgrown = Raise KeyError.
Proof.
  apply (create_matrix_unmapped outgrown train_a [1] [10] 1
           [(10, q 5); (20, q 3)] 20); try done.
  - by_evaluation.
  - by_evaluation.
  - by right.
  - change (map_Forall (λ _ k, (k < 1)%nat) (user_to_user_id outgrown)).
    by_evaluation.
  - change (map_Forall (λ _ k, (k < 1)%nat) (item_to_item_id outgrown)).
    by_evaluation.
Defined.

(** C7 fails on the error raised: the interaction (1, 20, 3) has an item
    without index, and what [create_matrix] raises is [KeyError]. *)
Lemma create_matrix_unmapped_counterexample :
  train_set outgrown = Some train_a ∧
  (20, q 3) ∈ default [] (ds_feedback train_a !! 1) ∧
  item_to_item_id outgrown !! 20 = None ∧
  create_matrix outgrown = Raise KeyError.
Proof. split_and!; by_evaluation. Qed.

(** *** Similarity *)



(** On the rows (5, 3) and (4, 0) the city-block distance is 4, which is
    the maximum; the similarities are 1 on the diagonal and 0 off it. *)
Example similarity_scenario_a :
  compute_similarity (with_matrix rows_a 2 "cityblock") false =
    Ok [[Fin (q 1); Fin (q 0)]; [Fin (q 0); Fin (q 1)]].
Proof. by_evaluation. Qed.

Lemma compute_similarity_zero_distances_witness :
  compute_similarity (with_matrix identical_rows 2 "cityblock") false =
    Ok [[NaN; NaN]; [NaN; NaN]].
Proof.
  apply (compute_similarity_zero_distances Metrics.by_name
           (with_matrix identical_rows 2 "cityblock")
           {| ncols := 2; rows := identical_rows |} Metrics.cityblock false);
    try done.
  intros u v Hu Hv. each_member Hu; each_member Hv; by_evaluation.
Defined.

(** A matrix of one row has the 1×1 zero distance matrix, and the same
    result. *)
Example similarity_single_row :
  compute_similarity (with_matrix [[q 1; q 2]] 2 "cityblock") false =
    Ok [[NaN]].
Proof. by_evaluation. Qed.

(** Transposed, the columns (5, 4) and (3, 0) of the same rows are
    compared: their distance is 6. *)
Example similarity_scenario_a_transposed :
  compared {| ncols := 2; rows := rows_a |} true =
    [[q 5; q 4]; [q 3; q 0]] ∧
  distance_matrix Metrics.cityblock
    (compared {| ncols := 2; rows := rows_a |} true) =
    [[Fin (q 0); Fin (q 6)]; [Fin (q 6); Fin (q 0)]] ∧
  compute_similarity (with_matrix rows_a 2 "cityblock") true =
    Ok [[Fin (q 1); Fin (q 0)]; [Fin (q 0); Fin (q 1)]].
Proof. split_and!; by_evaluation. Qed.

(** The rows (1) and (-1) are at an infinite Bray-Curtis distance: the
    maximum is infinite and no entry of the result is a number. *)
Example similarity_infinite_distance :
  Metrics.braycurtis [q 1] [q (-1)] = PInf ∧
  compute_similarity (with_matrix [[q 1]; [q (-1)]] 1 "braycurtis") false =
    Ok [[NaN; NaN]; [NaN; NaN]].
Proof. split; by_evaluation. Qed.

(** The rows (0) and (10^-46) are at a distance that is zero in single
    precision: the maximum is zero, as between identical rows. *)
Example similarity_underflow :
  Metrics.cityblock [q 0] [(q 1 / q (10 ^ 46))%Qc] =
    Fin (q 1 / q (10 ^ 46))%Qc ∧
  float32 (Fin (q 1 / q (10 ^ 46))%Qc) = Fin (q 0) ∧
  compute_similarity
    (with_matrix [[q 0]; [(q 1 / q (10 ^ 46))%Qc]] 1 "cityblock") false =
    Ok [[NaN; NaN]; [NaN; NaN]].
Proof. split_and!; by_evaluation. Qed.



(** *** Reuse and output *)

(** C8, where the code departs from it.  After the fold with users 1, 2
    and items 10, 20, a second run on the fold with user 1 and item 10
    empties the ranking, but the maps still hold user 2 and item 20:
    the instance is not in the state a new instance reaches on the
    second fold. *)
Theorem compute_twice_keeps_entries :
  (s2 ← two_runs; s1 ← one_run;
   Ok (ranking s2, users s2, items s2, users s1, items s1,
       (item_to_item_id s2 !! 20, item_to_item_id s1 !! 20),
       (item_id_to_item s2 !! 1%nat, item_id_to_item s1 !! 1%nat),
       (user_to_user_id s2 !! 2, user_to_user_id s1 !! 2))) =
  Ok ([], Some [1], Some [10], Some [1], Some [10],
      (Some 1%nat, None), (Some 20, None), (Some 1%nat, None)) ∧
  two_runs ≠ one_run.
Proof. split; by_evaluation. Qed.

(** C9, where the code departs from it.  With input delimiter [","] and
    output delimiter [";"] the one writer call is made with [","]. *)
Theorem write_ranking_uses_input_sep :
  let self := set_ranking [(1, 10, q 1)] (new "train_a" None "cityblock") in
  sep self = "," ∧ output_sep self = ";" ∧
  write_ranking self = [WriteFile "ranking.dat" [(1, 10, q 1)] ","] ∧
  wc_sep <$> write_ranking self ≠ [output_sep self].
Proof. simpl. split_and!; by_evaluation. Qed.
End Runs.

(** * Further properties *)

(** ** The square form for an arbitrary metric *)

Section Mirror.
Variable dist : list Qc → list Qc → fval.
Implicit Types (X : list (list Qc)).

Lemma mirrored_cons u X :
  mirrored dist (u :: X) =
    (zero :: (dist u <$> X))
      :: zip_with cons (dist u <$> X) (mirrored dist X).
Proof.
  unfold mirrored. rewrite zip_with_cons_imap, !imap_cons. f_equal.
  - f_equal. rewrite <-imap_const. by apply imap_ext.
  - apply imap_ext. intros i v _. simpl. f_equal.
    apply imap_ext. intros j w _. simpl.
    destruct (decide (i = j)) as [->|Hne].
    + by rewrite decide_True.
    + rewrite decide_False by lia.
      destruct (decide (i < j)).
      * by rewrite decide_True by lia.
      * by rewrite decide_False by lia.
Qed.

Lemma to_squareform_mirrored X :
  to_squareform (length X) (pdist_with dist X) = mirrored dist X.
Proof.
  induction X as [|u X IH]; [done|].
  rewrite mirrored_cons. simpl.
  rewrite take_app_length', drop_app_length' by by rewrite length_fmap.
  by rewrite IH.
Qed.

Lemma entry_mirrored X i j :
  entry (mirrored dist X) i j =
    u ← X !! i; v ← X !! j;
    Some (if decide (i = j) then zero
          else if decide (i < j) then dist u v else dist v u).
Proof.
  unfold entry, mirrored. rewrite list_lookup_imap.
  destruct (X !! i) as [u|]; simpl; [|done].
  rewrite list_lookup_imap. by destruct (X !! j).
Qed.

(** The mirror image makes the matrix symmetric for every metric. *)
Lemma entry_mirrored_sym X i j :
  entry (mirrored dist X) i j = entry (mirrored dist X) j i.
Proof.
  rewrite !entry_mirrored.
  destruct (X !! i) as [u|], (X !! j) as [v|]; simpl; try done.
  destruct (decide (i = j)) as [->|Hne].
  - by rewrite decide_True.
  - rewrite (decide_False (P := j = i)) by done.
    destruct (decide (i < j)).
    + by rewrite (decide_False (P := j < i)) by lia.
    + by rewrite (decide_True (P := j < i)) by lia.
Qed.

Lemma mirrored_shape X :
  length (mirrored dist X) = length X ∧
  Forall (λ r, length r = length X) (mirrored dist X).
Proof.
  unfold mirrored. split; [apply length_imap|].
  apply Forall_forall. intros r (i & u & -> & _)%elem_of_lookup_imap_1.
  apply length_imap.
Qed.

Lemma elem_of_mirrored X e :
  e ∈ mjoin (mirrored dist X) →
  e = zero ∨ ∃ u v, u ∈ X ∧ v ∈ X ∧ e = dist u v.
Proof.
  intros (r & He & Hr)%list_elem_of_join.
  apply elem_of_lookup_imap_1 in Hr as (i & u & -> & Hu).
  apply elem_of_lookup_imap_1 in He as (j & v & -> & Hv).
  apply list_elem_of_lookup_2 in Hu, Hv.
  repeat case_decide; [by left|right..]; eauto 6.
Qed.

Lemma mirrored_nonempty X : X ≠ [] → mjoin (mirrored dist X) ≠ [].
Proof. destruct X as [|u X]; [done|]. intros _. by rewrite mirrored_cons. Qed.
End Mirror.

(** ** [compute_similarity] for an arbitrary metric *)

Section SimilarityAny.
Context {K : Type} `{Countable K} {frame : Type}.
Variable metric_of : string → option (list Qc → list Qc → fval).

Local Abbreviation instance := (@instance K _ _ frame).
Local Abbreviation compute_similarity := (compute_similarity metric_of).

Implicit Types (self : instance) (M : ndarray) (transposed : bool).
Implicit Types (dist : list Qc → list Qc → fval).

Lemma compute_similarity_mirrored self M dist transposed :
  matrix self = Some M →
  metric_of (similarity_metric self) = Some dist →
  vectors M transposed ≠ [] →
  compute_similarity self transposed =
    (let D := amap nan_to_one
                (mirrored (narrowed dist) (vectors M transposed)) in
     mx ← amax D; Ok (normalized mx D)).
Proof.
  intros HM Hd HX. unfold compute_similarity, pdist.
  rewrite HM, Hd. simpl.
  rewrite squareform_pdist by done. simpl.
  by rewrite squareform_pdist_narrowed, to_squareform_mirrored.
Qed.

Lemma mirrored_max dist (X : list (list Qc)) :
  X ≠ [] →
  ∃ g, amax (amap nan_to_one (mirrored dist X)) = Ok g ∧
       is_global_max g (amap nan_to_one (mirrored dist X)).
Proof.
  intros HX. apply amax_spec; [|apply amap_not_nan].
  destruct X as [|u X]; [done|]. by rewrite mirrored_cons.
Qed.

Lemma amap_shape (f : fval → fval) (D : list (list fval)) n :
  length D = n → Forall (λ r, length r = n) D →
  length (amap f D) = n ∧ Forall (λ r, length r = n) (amap f D).
Proof.
  intros Hn Hr. unfold amap. rewrite length_fmap. split; [done|].
  apply Forall_fmap. eapply Forall_impl; [done|].
  intros r Hlen. simpl. by rewrite length_fmap.
Qed.

(** X2.  The result is symmetric whether or not the metric is: only the
    distances of the pairs [i < j] are computed, and [squareform] mirrors
    them. *)
Theorem compute_similarity_symmetric_any_metric self M dist transposed :
  matrix self = Some M →
  metric_of (similarity_metric self) = Some dist →
  vectors M transposed ≠ [] →
  ∃ S, compute_similarity self transposed = Ok S ∧
    ∀ i j, entry S i j = entry S j i.
Proof.
  intros HM Hd HX.
  rewrite (compute_similarity_mirrored _ _ _ _ HM Hd HX). simpl.
  destruct (mirrored_max (narrowed dist) _ HX) as (g & -> & _). simpl.
  eexists. split; [done|]. intros i j.
  unfold normalized. rewrite !entry_amap. by rewrite entry_mirrored_sym.
Qed.

(** X3.  One vector (one user, or one item when transposed): no distance is
    computed, the 1×1 zero matrix has maximum zero, and the one entry of
    the result is not a number. *)
Theorem compute_similarity_single_vector self M dist transposed u :
  matrix self = Some M →
  metric_of (similarity_metric self) = Some dist →
  vectors M transposed = [u] →
  compute_similarity self transposed = Ok [[NaN]].
Proof.
  intros HM Hd HX.
  rewrite (compute_similarity_mirrored _ _ dist _ HM Hd) by by rewrite HX.
  rewrite HX. by vm_compute.
Qed.

(** When no defined distance is negative and some computed distance is
    positive or undefined, the maximum is a positive number above every
    remediated distance. *)
Lemma positive_max dist (X : list (list Qc)) a b u v g :
  (∀ u v, u ∈ X → v ∈ X →
     dist u v = NaN ∨ ∃ q, dist u v = Fin q ∧ (0 ≤ q)%Qc) →
  X !! a = Some u → X !! b = Some v → a < b →
  (dist u v = NaN ∨ ∃ q, dist u v = Fin q ∧ (0 < q)%Qc) →
  is_global_max g (amap nan_to_one (mirrored dist X)) →
  ∃ m, g = Fin m ∧ (0 < m)%Qc ∧
    ∀ d, d ∈ mjoin (amap nan_to_one (mirrored dist X)) →
      ∃ q, d = Fin q ∧ (0 ≤ q)%Qc ∧ (q ≤ m)%Qc.
Proof.
  intros Hpos Hu Hv Hab Hbig [Hgin Hub].
  assert (∀ d, d ∈ mjoin (amap nan_to_one (mirrored dist X)) →
               ∃ q, d = Fin q ∧ (0 ≤ q)%Qc) as Hfin.
  { intros d (d' & -> & Hd')%elem_of_amap.
    apply elem_of_mirrored in Hd' as [->|(u' & v' & Hu' & Hv' & ->)].
    - by exists 0%Qc.
    - destruct (Hpos u' v' Hu' Hv') as [->|(q & -> & Hq)].
      + by exists 1%Qc.
      + by exists q. }
  destruct (Hfin g Hgin) as (m & -> & Hm). exists m. split; [done|].
  assert (∃ q, nan_to_one (dist u v) = Fin q ∧ (0 < q)%Qc) as (q & Hq & Hq0).
  { destruct Hbig as [->|(q & -> & Hq)]; [by exists 1%Qc|by exists q]. }
  assert (nan_to_one (dist u v)
            ∈ mjoin (amap nan_to_one (mirrored dist X))) as Hin.
  { apply (entry_elem_of _ a b). rewrite entry_amap, entry_mirrored, Hu, Hv.
    simpl. rewrite decide_False by lia. by rewrite decide_True by done. }
  split.
  - specialize (Hub _ Hin). rewrite Hq in Hub. simpl in Hub.
    by apply Qclt_le_trans with q.
  - intros d Hd. destruct (Hfin d Hd) as (q' & -> & Hq').
    exists q'. split_and!; [done..|]. by apply (Hub (Fin q')).
Qed.

(** In single precision a distance that is not negative and below the
    overflow threshold stays a number that is not negative, and stays
    itself above the underflow threshold. *)
Lemma float32_in_range (q : Qc) :
  (0 ≤ q)%Qc → (q < float32_overflow)%Qc →
  ∃ q', float32 (Fin q) = Fin q' ∧ (0 ≤ q')%Qc ∧
    ((float32_underflow < q)%Qc → q' = q).
Proof.
  intros Hq Hov. unfold float32.
  rewrite decide_False by by apply Qclt_not_le.
  destruct (decide (q ≤ - float32_overflow)%Qc) as [Hneg|_].
  { exfalso. apply (Qclt_not_le _ _ float32_overflow_above_zero).
    apply Qcopp_le_compat in Hneg. rewrite Qcopp_involutive in Hneg.
    apply (Qcle_trans _ _ _ Hneg).
    apply Qcopp_le_compat in Hq. by rewrite Qcle_minus_iff in *. }
  destruct (decide _) as [[_ Hlow]|_].
  - exists 0%Qc. split_and!; [done..|].
    intros Hup. by apply Qclt_not_le in Hup.
  - by exists q.
Qed.

Lemma narrowed_in_range dist (X : list (list Qc)) :
  (∀ u v, u ∈ X → v ∈ X →
     dist u v = NaN ∨
     ∃ q, dist u v = Fin q ∧ (0 ≤ q)%Qc ∧ (q < float32_overflow)%Qc) →
  (∀ u v, u ∈ X → v ∈ X →
     narrowed dist u v = NaN ∨
     ∃ q, narrowed dist u v = Fin q ∧ (0 ≤ q)%Qc) ∧
  (∀ u v, u ∈ X → v ∈ X →
     (dist u v = NaN ∨
      ∃ q, dist u v = Fin q ∧ (float32_underflow < q)%Qc) →
     narrowed dist u v = NaN ∨
     ∃ q, narrowed dist u v = Fin q ∧ (0 < q)%Qc).
Proof.
  intros Hpos. split.
  - intros u v Hu Hv. unfold narrowed.
    destruct (Hpos u v Hu Hv) as [->|(q & -> & Hq & Hov)]; [by left|].
    destruct (float32_in_range q Hq Hov) as (q' & -> & Hq' & _).
    right. by exists q'.
  - intros u v Hu Hv Hbig. unfold narrowed.
    destruct (Hpos u v Hu Hv) as [->|(q & Hd & Hq & Hov)]; [by left|].
    destruct Hbig as [Hn|(q0 & Hd0 & Hlow)]; [congruence|].
    rewrite Hd in *. injection Hd0 as <-.
    destruct (float32_in_range q Hq Hov) as (q' & -> & _ & Heq).
    right. exists q'. split; [done|]. rewrite (Heq Hlow).
    by apply (Qclt_trans _ _ _ float32_underflow_above_zero).
Qed.

(** X4.  Away from overflow and from the zero maximum the comment in the
    code holds for every metric: when every defined distance is a number
    that is not negative and is below the single precision overflow
    threshold, and some computed distance is undefined or above the
    underflow threshold, every entry of the result is a number between 0
    and 1. *)
Theorem compute_similarity_in_unit_interval self M dist transposed a b u v :
  matrix self = Some M →
  metric_of (similarity_metric self) = Some dist →
  (∀ u v, u ∈ vectors M transposed → v ∈ vectors M transposed →
     dist u v = NaN ∨
     ∃ q, dist u v = Fin q ∧ (0 ≤ q)%Qc ∧ (q < float32_overflow)%Qc) →
  vectors M transposed !! a = Some u →
  vectors M transposed !! b = Some v → a < b →
  (dist u v = NaN ∨ ∃ q, dist u v = Fin q ∧ (float32_underflow < q)%Qc) →
  ∃ S, compute_similarity self transposed = Ok S ∧
    ∀ i j e, entry S i j = Some e →
      ∃ s, e = Fin s ∧ (0 ≤ s)%Qc ∧ (s ≤ 1)%Qc.
Proof.
  intros HM Hd Hpos Hu Hv Hab Hbig.
  assert (vectors M transposed ≠ []) as HX by by intros HX; rewrite HX in Hu.
  destruct (narrowed_in_range _ _ Hpos) as [Hpos' Hbig'].
  specialize (Hbig' u v (list_elem_of_lookup_2 _ _ _ Hu)
                (list_elem_of_lookup_2 _ _ _ Hv) Hbig).
  rewrite (compute_similarity_mirrored _ _ _ _ HM Hd HX). simpl.
  destruct (mirrored_max (narrowed dist) _ HX) as (g & -> & Hmax). simpl.
  eexists. split; [done|]. intros i j e He.
  destruct (positive_max _ _ _ _ _ _ _ Hpos' Hu Hv Hab Hbig' Hmax)
    as (m & -> & Hm & Hall).
  unfold normalized in He. rewrite entry_amap in He.
  destruct (entry _ i j) as [d|] eqn:Hd'; simplify_eq/=.
  apply entry_elem_of in Hd'. destruct (Hall d Hd') as (q & -> & Hq & Hqm).
  assert (m ≠ 0%Qc) as Hm0 by (intros ->; by apply (Qclt_not_eq 0 0)%Qc).
  exists ((m - q) / m)%Qc. simpl. rewrite decide_False by done.
  split; [done|]. by apply unit_interval.
Qed.

(** X5.  Under the same conditions every vector has similarity 1 with
    itself. *)
Theorem compute_similarity_diagonal_one self M dist transposed a b u v :
  matrix self = Some M →
  metric_of (similarity_metric self) = Some dist →
  (∀ u v, u ∈ vectors M transposed → v ∈ vectors M transposed →
     dist u v = NaN ∨
     ∃ q, dist u v = Fin q ∧ (0 ≤ q)%Qc ∧ (q < float32_overflow)%Qc) →
  vectors M transposed !! a = Some u →
  vectors M transposed !! b = Some v → a < b →
  (dist u v = NaN ∨ ∃ q, dist u v = Fin q ∧ (float32_underflow < q)%Qc) →
  ∃ S, compute_similarity self transposed = Ok S ∧
    ∀ i, i < length (vectors M transposed) → entry S i i = Some one.
Proof.
  intros HM Hd Hpos Hu Hv Hab Hbig.
  assert (vectors M transposed ≠ []) as HX by by intros HX; rewrite HX in Hu.
  destruct (narrowed_in_range _ _ Hpos) as [Hpos' Hbig'].
  specialize (Hbig' u v (list_elem_of_lookup_2 _ _ _ Hu)
                (list_elem_of_lookup_2 _ _ _ Hv) Hbig).
  rewrite (compute_similarity_mirrored _ _ _ _ HM Hd HX). simpl.
  destruct (mirrored_max (narrowed dist) _ HX) as (g & -> & Hmax). simpl.
  eexists. split; [done|]. intros i Hi.
  destruct (positive_max _ _ _ _ _ _ _ Hpos' Hu Hv Hab Hbig' Hmax)
    as (m & -> & Hm & _).
  assert (m ≠ 0%Qc) as Hm0 by (intros ->; by apply (Qclt_not_eq 0 0)%Qc).
  unfold normalized. rewrite !entry_amap, entry_mirrored.
  destruct (lookup_lt_is_Some_2 _ _ Hi) as [w ->]. simpl.
  rewrite decide_True by done.
  change (nan_to_one zero) with zero. unfold zero.
  change (fdiv (Fin (m - 0)) (Fin m)) with (fdiv (fsub (Fin m) (Fin 0)) (Fin m)).
  rewrite fdiv_fsub_Fin by done. unfold one. do 2 f_equal. by field.
Qed.
End SimilarityAny.

(** ** The index loops on lists with repetitions and on maps in use *)

Section IndexAgain.
Context {K : Type} `{Countable K}.
Implicit Types (l : list K) (f : gmap K nat) (b : gmap nat K).

(** The entry of a listed entity does not depend on what the maps held. *)
Lemma index_entities_fwd_in l f b f' b' x :
  x ∈ l →
  (index_entities l f b).1 !! x = (index_entities l f' b').1 !! x.
Proof.
  induction l as [|y l IH] using rev_ind; [by intros ?%elem_of_nil|].
  rewrite !index_entities_snoc.
  destruct (index_entities l f b) as [f1 b1],
    (index_entities l f' b') as [f2 b2]. simpl in *.
  intros Hx. destruct (decide (y = x)) as [->|Hne].
  - by rewrite !lookup_insert_eq.
  - rewrite !lookup_insert_ne by done. apply IH.
    apply elem_of_app in Hx as [?|Hx%list_elem_of_singleton]; [done|].
    by subst.
Qed.

(** Running the loops again over the same list changes nothing. *)
Lemma index_entities_idem l f b :
  index_entities l (index_entities l f b).1 (index_entities l f b).2 =
    index_entities l f b.
Proof.
  rewrite (surjective_pairing (index_entities l _ _)).
  rewrite (surjective_pairing (index_entities l f b)) at 5.
  f_equal.
  - apply map_eq. intros x. destruct (decide (x ∈ l)) as [Hin|Hnin].
    + by apply index_entities_fwd_in.
    + by rewrite index_entities_fwd_notin.
  - apply map_eq. intros k. rewrite !index_entities_bwd.
    by destruct (l !! k).
Qed.

(** An entity listed more than once keeps the index of its last
    occurrence. *)
Lemma index_entities_fwd_last l f b x :
  x ∈ l →
  ∃ k, (index_entities l f b).1 !! x = Some k ∧ l !! k = Some x ∧
    ∀ k', k < k' → l !! k' ≠ Some x.
Proof.
  induction l as [|y l IH] using rev_ind; [by intros ?%elem_of_nil|].
  rewrite index_entities_snoc.
  destruct (index_entities l f b) as [f1 b1]. simpl in *.
  intros Hx. destruct (decide (y = x)) as [->|Hne].
  - exists (length l). rewrite lookup_insert_eq.
    split_and!; [done|by rewrite list_lookup_middle|].
    intros k' Hk'. rewrite lookup_ge_None_2; [done|].
    rewrite length_app. simpl. lia.
  - apply elem_of_app in Hx as [Hx|Hx%list_elem_of_singleton]; [|by subst].
    destruct (IH Hx) as (k & Hk & Hlk & Hlast). exists k.
    rewrite lookup_insert_ne by done.
    assert (k < length l) by by eapply lookup_lt_Some.
    split_and!; [done|by rewrite lookup_app_l|].
    intros k' Hk'. destruct (decide (k' < length l)).
    + rewrite lookup_app_l by done. by apply Hlast.
    + destruct (decide (k' = length l)) as [->|].
      * rewrite list_lookup_middle by done. congruence.
      * rewrite lookup_ge_None_2; [done|]. rewrite length_app. simpl. lia.
Qed.
End IndexAgain.

(** ** More on [read_data], [compute] and [create_matrix] *)

Section Reuse.
Context {K : Type} `{Countable K} (le : relation K) `{!RelDecision le}.
Context {frame : Type}.

Local Abbreviation dataset := (@dataset K _ _).
Local Abbreviation instance := (@instance K _ _ frame).
Variable ReadFile : string → string → bool → res dataset.
Variable ReadDataframe : frame → bool → res dataset.

Local Abbreviation read_data := (read_data le ReadFile ReadDataframe).
Local Abbreviation compute := (compute le ReadFile ReadDataframe).
Local Abbreviation loads := (loads ReadFile ReadDataframe).
Local Abbreviation universe := (universe le).

Implicit Types (self : instance) (train : dataset) (test : option dataset).

(** X6.  [read_data] assigns the two data sets, the two entity lists and the
    four maps, and nothing else: the configuration, the recommender name,
    the ranking and the matrix are as before.  A matrix built for earlier
    data stays in place until [create_matrix] is called again. *)
Theorem read_data_leaves_the_rest self train test :
  loads self train test →
  ∃ s', read_data self = Ok s' ∧
    train_file s' = train_file self ∧ test_file s' = test_file self ∧
    as_binary s' = as_binary self ∧
    similarity_metric s' = similarity_metric self ∧
    output_file s' = output_file self ∧ rank_length s' = rank_length self ∧
    sep s' = sep self ∧ output_sep s' = output_sep self ∧
    verbose s' = verbose self ∧
    recommender_name s' = recommender_name self ∧
    ranking s' = ranking self ∧ matrix s' = matrix self.
Proof.
  intros Hl. eexists. split; [by apply read_data_run|]. by repeat split.
Qed.

(** X7.  A second [read_data] with the configuration unchanged (and the
    readers returning what they returned) leaves the instance as the
    first one left it. *)
Theorem read_data_idempotent self train test :
  loads self train test →
  ∃ s', read_data self = Ok s' ∧ read_data s' = Ok s'.
Proof.
  intros Hl. eexists. split; [by apply read_data_run|].
  match goal with |- read_data ?s = _ => set (s1 := s) end.
  assert (loads s1 train test) as Hl1 by done.
  rewrite (read_data_run _ _ _ _ _ _ Hl1). f_equal.
  unfold s1, set_maps, set_data. simpl.
  rewrite !index_entities_idem. by destruct test.
Qed.

(** X8.  Whatever the maps held and whether or not entities repeat in the
    list, the reverse maps read the stored lists back: index [k] below the
    length gives the entity at position [k]. *)
Theorem read_data_reverse_map self train test :
  loads self train test →
  ∃ s' us its,
    read_data self = Ok s' ∧ users s' = Some us ∧ items s' = Some its ∧
    (∀ k, k < length us → user_id_to_user s' !! k = us !! k) ∧
    (∀ k, k < length its → item_id_to_item s' !! k = its !! k).
Proof.
  intros Hl. eexists _, _, _. split; [by apply read_data_run|]. simpl.
  split_and!; [done..| |]; intros k [x Hk]%lookup_lt_is_Some_2;
    by rewrite index_entities_bwd, Hk.
Qed.

(** X9.  When the reader lists an entity more than once, the forward map
    sends it to the index of its last occurrence; the earlier indices are
    entries of the reverse map only. *)
Theorem read_data_last_occurrence self train test :
  loads self train test →
  ∃ s' us its,
    read_data self = Ok s' ∧ users s' = Some us ∧ items s' = Some its ∧
    (∀ x, x ∈ us →
       ∃ k, user_to_user_id s' !! x = Some k ∧ us !! k = Some x ∧
            ∀ k', k < k' → us !! k' ≠ Some x) ∧
    (∀ x, x ∈ its →
       ∃ k, item_to_item_id s' !! x = Some k ∧ its !! k = Some x ∧
            ∀ k', k < k' → its !! k' ≠ Some x).
Proof.
  intros Hl. eexists _, _, _. split; [by apply read_data_run|]. simpl.
  split_and!; [done..| |]; intros x Hx; by apply index_entities_fwd_last.
Qed.

(** X10.  [read_data] only updates the maps it finds.  An entity outside the
    new lists keeps its forward entry, and an index at or beyond the new
    length keeps its reverse entry. *)
Theorem read_data_keeps_old_entries self train test :
  loads self train test →
  ∃ s' us its,
    read_data self = Ok s' ∧ users s' = Some us ∧ items s' = Some its ∧
    (∀ x, x ∉ us → user_to_user_id s' !! x = user_to_user_id self !! x) ∧
    (∀ x, x ∉ its → item_to_item_id s' !! x = item_to_item_id self !! x) ∧
    (∀ k, length us ≤ k →
       user_id_to_user s' !! k = user_id_to_user self !! k) ∧
    (∀ k, length its ≤ k →
       item_id_to_item s' !! k = item_id_to_item self !! k).
Proof.
  intros Hl. eexists _, _, _. split; [by apply read_data_run|]. simpl.
  split_and!; [done..| | | |].
  - intros x. apply index_entities_fwd_notin.
  - intros x. apply index_entities_fwd_notin.
  - intros k Hk. by rewrite index_entities_bwd, lookup_ge_None_2.
  - intros k Hk. by rewrite index_entities_bwd, lookup_ge_None_2.
Qed.

(** X11.  A test set whose users and items all occur in the train set adds
    nothing: the stored lists are rearrangements of the train lists, and
    are the train lists themselves when those are sorted. *)
Theorem read_data_test_adds_nothing
    `{!Transitive le, !Total le, !AntiSymm (=) le} self train t :
  loads self train (Some t) →
  NoDup (ds_users train) → NoDup (ds_items train) →
  (∀ x, x ∈ ds_users t → x ∈ ds_users train) →
  (∀ x, x ∈ ds_items t → x ∈ ds_items train) →
  ∃ s' us its,
    read_data self = Ok s' ∧ users s' = Some us ∧ items s' = Some its ∧
    us ≡ₚ ds_users train ∧ its ≡ₚ ds_items train ∧
    (StronglySorted le (ds_users train) → us = ds_users train) ∧
    (StronglySorted le (ds_items train) → its = ds_items train).
Proof.
  intros Hl Hndu Hndi Hu Hi.
  eexists _, _, _. split; [by apply read_data_run|]. simpl.
  destruct (universe_test le ds_users train t) as (Hsu & Hnu & Heu).
  destruct (universe_test le ds_items train t) as (Hsi & Hni & Hei).
  assert (universe ds_users train (Some t) ≡ₚ ds_users train) as Hpu.
  { apply NoDup_Permutation; [done..|]. intros x. rewrite Heu.
    split; [intros [?|?]; [done|by apply Hu]|by left]. }
  assert (universe ds_items train (Some t) ≡ₚ ds_items train) as Hpi.
  { apply NoDup_Permutation; [done..|]. intros x. rewrite Hei.
    split; [intros [?|?]; [done|by apply Hi]|by left]. }
  split_and!; [done..| |]; intros Hs; by apply (StronglySorted_unique le).
Qed.

(** X12.  [compute] on an instance without a recommender name (the base class
    as it is) raises [TypeError] when the header is to be printed, after
    the data has been read. *)
Theorem compute_unnamed_raises self train test verbose_arg :
  loads self train test →
  recommender_name self = None →
  verbose_arg || verbose self = true →
  compute self verbose_arg = Raise TypeError.
Proof.
  intros Hl Hname Hv. unfold compute.
  rewrite (read_data_run _ _ _ _ _ _ Hl). simpl. by rewrite Hv, Hname.
Qed.

End Reuse.

Section MatrixAgain.
Context {K : Type} `{Countable K} {frame : Type}.

Local Abbreviation dataset := (@dataset K _ _).
Local Abbreviation instance := (@instance K _ _ frame).

Implicit Types (self : instance) (train : dataset) (M : ndarray).

Lemma fill_cell_shaped self u fb M i M' n m :
  shaped n m M → fill_cell self u fb M i = Ok M' → shaped n m M'.
Proof.
  intros (Hn & Hm & Hws). unfold fill_cell.
  destruct (dict_get i fb); simpl; [|done].
  destruct (user_to_user_id self !! u) as [r|]; simpl; [|done].
  destruct (rows M !! r); simpl; [|done].
  destruct (item_to_item_id self !! i) as [c|]; simpl; [|done].
  intros (Hn' & Hm' & Hws')%setitem_shape.
  split_and!; [by rewrite Hn'|by rewrite Hm'|by apply Hws'].
Qed.

Lemma create_matrix_inv self s' :
  create_matrix self = Ok s' →
  ∃ us its M,
    users self = Some us ∧ items self = Some its ∧
    s' = set_matrix M self ∧
    nrows M = length us ∧ ncols M = length its ∧ well_shaped M.
Proof.
  unfold create_matrix.
  destruct (users self) as [us|]; simpl; [|done].
  destruct (items self) as [its|]; simpl; [|done].
  destruct (train_set self) as [train|]; simpl; [|done].
  destruct (for_each _ _ _) as [M|] eqn:HM; simpl; [|done].
  intros [= <-]. exists us, its, M. split_and!; [done..| | |];
    (apply (for_each_inv _ (shaped (length us) (length its)) _ _ _
              (zeros_shape _ _)) in HM; [by destruct HM as (? & ? & ?)|]);
    (intros M1 u M2 HM1 _; unfold fill_user;
     destruct (ds_feedback train !! u) as [fb|]; simpl; [|done];
     apply for_each_inv; [done|]; intros M3 i M4 HM3 _;
     by apply fill_cell_shaped).
Qed.


Section After.
Variable metric_of : string → option (list Qc → list Qc → fval).

(** X16.  After [create_matrix], with a known metric and at least one user
    (one item when transposed), [compute_similarity] returns a square
    array with one row and one column for each stored user (each stored
    item when transposed). *)
Theorem compute_similarity_after_create_matrix
    self s' (us its : list K) dist (transposed : bool) :
  create_matrix self = Ok s' →
  users self = Some us → items self = Some its →
  metric_of (similarity_metric self) = Some dist →
  (if transposed then its else us) ≠ [] →
  ∃ S, compute_similarity metric_of s' transposed = Ok S ∧
    length S = length (if transposed then its else us) ∧
    Forall (λ r, length r = length (if transposed then its else us)) S.
Proof.
  intros (us' & its' & M & Hus' & Hits' & -> & Hn & Hm & _)%create_matrix_inv
    Hus Hits Hd Hne.
  rewrite Hus in Hus'. rewrite Hits in Hits'.
  injection Hus' as <-. injection Hits' as <-.
  assert (length (vectors M transposed)
          = length (if transposed then its else us)) as Hlen.
  { unfold vectors, transpose. destruct transposed; simpl; [|done].
    by rewrite length_fmap, length_seq. }
  assert (vectors M transposed ≠ []) as HX.
  { intros HX. rewrite HX in Hlen. by destruct transposed, its, us. }
  rewrite (compute_similarity_mirrored metric_of
             (set_matrix M self) M dist transposed eq_refl Hd HX).
  destruct (mirrored_max (narrowed dist) (vectors M transposed) HX)
    as (g & Hg & _).
  simpl. rewrite Hg. simpl. eexists. split; [done|].
  destruct (mirrored_shape (narrowed dist) (vectors M transposed))
    as [Hl Hr].
  rewrite Hlen in Hl, Hr. unfold normalized. by do 2 apply amap_shape.
Qed.
End After.
End MatrixAgain.

Section TestOnly.
Context {K : Type} `{Countable K} (le : relation K) `{!RelDecision le}.
Context {frame : Type}.

Local Abbreviation dataset := (@dataset K _ _).
Local Abbreviation instance := (@instance K _ _ frame).
Variable ReadFile : string → string → bool → res dataset.
Variable ReadDataframe : frame → bool → res dataset.

Local Abbreviation read_data := (read_data le ReadFile ReadDataframe).
Local Abbreviation loads := (loads ReadFile ReadDataframe).

Implicit Types (self : instance) (train : dataset) (test : option dataset).

End TestOnly.

(** ** The further properties on concrete runs *)

Section MoreRuns.
Import Examples.
Local Open Scope Z_scope.

(** The distance matrix of the lopsided metric on the rows (5, 3), (4, 0)
    holds 8, the sum of the first row, on both sides of the diagonal. *)
Lemma compute_similarity_symmetric_any_metric_witness :
  lopsided [q 5; q 3] [q 4; q 0] ≠ lopsided [q 4; q 0] [q 5; q 3] ∧
  ∃ S, compute_similarity_lopsided (with_matrix rows_a 2 "any") false = Ok S ∧
    ∀ i j, entry S i j = entry S j i.
Proof.
  split; [by_evaluation|].
  by apply (compute_similarity_symmetric_any_metric lopsided_only
              (with_matrix rows_a 2 "any")
              {| ncols := 2; rows := rows_a |} lopsided false).
Defined.

Lemma compute_similarity_single_vector_witness :
  compute_similarity (with_matrix [[q 1; q 2]] 2 "cosine") false = Ok [[NaN]].
Proof.
  by apply (compute_similarity_single_vector Metrics.by_name
              (with_matrix [[q 1; q 2]] 2 "cosine")
              {| ncols := 2; rows := [[q 1; q 2]] |} Metrics.cosine false
              [q 1; q 2]).
Defined.

Lemma cosine_rows_345 u v :
  u ∈ rows_345 → v ∈ rows_345 →
  Metrics.cosine u v = NaN ∨
  ∃ d, Metrics.cosine u v = Fin d ∧ (0 ≤ d)%Qc ∧ (d < float32_overflow)%Qc.
Proof.
  intros Hu Hv. each_member Hu; each_member Hv;
    first [ left; by_evaluation
          | right; eexists; split; [vm_compute; reflexivity|];
            split; by_evaluation ].
Qed.

Lemma compute_similarity_in_unit_interval_witness :
  ∃ S, compute_similarity (with_matrix rows_345 2 "cosine") false = Ok S ∧
    ∀ i j e, entry S i j = Some e →
      ∃ s, e = Fin s ∧ (0 ≤ s)%Qc ∧ (s ≤ 1)%Qc.
Proof.
  apply (compute_similarity_in_unit_interval Metrics.by_name
           (with_matrix rows_345 2 "cosine")
           {| ncols := 2; rows := rows_345 |} Metrics.cosine false
           0%nat 1%nat [q 0; q 0] [q 3; q 4]); try done.
  - apply cosine_rows_345.
  - lia.
  - left. by_evaluation.
Defined.

Lemma compute_similarity_diagonal_one_witness :
  ∃ S, compute_similarity (with_matrix rows_345 2 "cosine") false = Ok S ∧
    ∀ i, (i < 3)%nat → entry S i i = Some one.
Proof.
  apply (compute_similarity_diagonal_one Metrics.by_name
           (with_matrix rows_345 2 "cosine")
           {| ncols := 2; rows := rows_345 |} Metrics.cosine false
           0%nat 1%nat [q 0; q 0] [q 3; q 4]); try done.
  - apply cosine_rows_345.
  - lia.
  - left. by_evaluation.
Defined.

Lemma read_data_leaves_the_rest_witness :
  ∃ s', read_data (with_matrix rows_a 2 "cityblock") = Ok s' ∧
    train_file s' = Path "train_a" ∧ test_file s' = None ∧
    as_binary s' = false ∧ similarity_metric s' = "cityblock" ∧
    output_file s' = Some "ranking.dat" ∧ rank_length s' = 10%nat ∧
    sep s' = "," ∧ output_sep s' = ";" ∧ verbose s' = false ∧
    recommender_name s' = None ∧ ranking s' = [] ∧
    matrix s' = Some {| ncols := 2; rows := rows_a |}.
Proof.
  by apply (read_data_leaves_the_rest Z.le ReadFile ReadDataframe
              (with_matrix rows_a 2 "cityblock") train_a None).
Defined.

Lemma read_data_idempotent_witness :
  ∃ s', read_data (new "train_a" (Some "test_b") "cityblock") = Ok s' ∧
        read_data s' = Ok s'.
Proof.
  apply (read_data_idempotent Z.le ReadFile ReadDataframe
           (new "train_a" (Some "test_b") "cityblock") train_a (Some test_b)).
  apply loads_train_a_test_b.
Defined.

Lemma loads_repeated :
  loads ReadFile_repeated ReadDataframe (new "rows" None "cityblock")
    train_repeated None.
Proof. by split. Qed.

Lemma read_data_reverse_map_witness :
  ∃ s' us its,
    read_data_repeated (new "rows" None "cityblock") = Ok s' ∧
    users s' = Some us ∧ items s' = Some its ∧
    (∀ k, (k < length us)%nat → user_id_to_user s' !! k = us !! k) ∧
    (∀ k, (k < length its)%nat → item_id_to_item s' !! k = its !! k).
Proof.
  apply (read_data_reverse_map Z.le ReadFile_repeated ReadDataframe
           (new "rows" None "cityblock") train_repeated None).
  apply loads_repeated.
Defined.

Lemma read_data_last_occurrence_witness :
  ∃ s' us its,
    read_data_repeated (new "rows" None "cityblock") = Ok s' ∧
    users s' = Some us ∧ items s' = Some its ∧
    (∀ x, x ∈ us →
       ∃ k, user_to_user_id s' !! x = Some k ∧ us !! k = Some x ∧
            ∀ k', (k < k')%nat → us !! k' ≠ Some x) ∧
    (∀ x, x ∈ its →
       ∃ k, item_to_item_id s' !! x = Some k ∧ its !! k = Some x ∧
            ∀ k', (k < k')%nat → its !! k' ≠ Some x).
Proof.
  apply (read_data_last_occurrence Z.le ReadFile_repeated ReadDataframe
           (new "rows" None "cityblock") train_repeated None).
  apply loads_repeated.
Defined.

(** Users [1; 2; 1]: user 1 has index 2, and index 0 still reads 1. *)
Example read_data_repeated_users :
  (s ← read_data_repeated (new "rows" None "cityblock");
   Ok (user_to_user_id s !! 1, user_to_user_id s !! 2,
       user_id_to_user s !! 0%nat, size (user_to_user_id s))) =
  Ok (Some 2%nat, Some 1%nat, Some 1, 2%nat).
Proof. by_evaluation. Qed.

Lemma loads_refolded : loads ReadFile ReadDataframe refolded train_c None.
Proof. split; by vm_compute. Qed.

Lemma read_data_keeps_old_entries_witness :
  ∃ s' us its,
    read_data refolded = Ok s' ∧ users s' = Some us ∧ items s' = Some its ∧
    (∀ x, x ∉ us → user_to_user_id s' !! x = user_to_user_id refolded !! x) ∧
    (∀ x, x ∉ its → item_to_item_id s' !! x = item_to_item_id refolded !! x) ∧
    (∀ k, (length us ≤ k)%nat →
       user_id_to_user s' !! k = user_id_to_user refolded !! k) ∧
    (∀ k, (length its ≤ k)%nat →
       item_id_to_item s' !! k = item_id_to_item refolded !! k).
Proof.
  apply (read_data_keeps_old_entries Z.le ReadFile ReadDataframe
           refolded train_c None).
  apply loads_refolded.
Defined.

Lemma read_data_test_adds_nothing_witness :
  ∃ s' us its,
    read_data (new "train_a" (Some "train_c") "cityblock") = Ok s' ∧
    users s' = Some us ∧ items s' = Some its ∧
    us ≡ₚ ds_users train_a ∧ its ≡ₚ ds_items train_a ∧
    (StronglySorted Z.le (ds_users train_a) → us = ds_users train_a) ∧
    (StronglySorted Z.le (ds_items train_a) → its = ds_items train_a).
Proof.
  apply (read_data_test_adds_nothing Z.le ReadFile ReadDataframe
           (new "train_a" (Some "train_c") "cityblock") train_a train_c).
  - split; [done|]. simpl. by eexists.
  - by_evaluation.
  - by_evaluation.
  - intros x Hx. each_member Hx. by_evaluation.
  - intros x Hx. each_member Hx. by_evaluation.
Defined.

Lemma compute_unnamed_raises_witness :
  compute (new "train_a" None "cityblock") true = Raise TypeError.
Proof.
  by apply (compute_unnamed_raises Z.le ReadFile ReadDataframe
              (new "train_a" None "cityblock") train_a None true).
Defined.


(** After the run on the smaller fold the matrix is still the 3×3 one of
    the first fold, while one user and one item are stored. *)
Example compute_refolded :
  (s ← compute refolded false; Ok (users s, items s, matrix s)) =
  Ok (Some [1], Some [10],
      Some {| ncols := 3;
              rows := [[q 5; q 3; q 0]; [q 4; q 0; q 0]; [q 0; q 0; q 0]] |}).
Proof. by_evaluation. Qed.



Lemma compute_similarity_after_create_matrix_witness :
  ∃ S, compute_similarity built true = Ok S ∧
    length S = 3%nat ∧ Forall (λ r, length r = 3%nat) S.
Proof.
  apply (compute_similarity_after_create_matrix Metrics.by_name
           loaded built [1; 2; 3] [10; 20; 30] Metrics.cityblock true);
    first [by_evaluation|done].
Defined.
End MoreRuns.
